(** * Token-amount codec and transaction-plan executor of the lending-agent mini app

    Shallow embedding of [lib/tokenUtils.ts] (token table, [formatTokenAmount],
    [parseTokenAmount], [isValidTokenAmount], [formatTransactionData],
    [createTransactionSummary]), of the handlers and the confirmation effect
    of [components/ui/tabs/ChatTab.tsx], and of the route
    [app/api/lending-agent/route.ts].

    Conventions of the embedding:
    - a JavaScript string is a list of code units below 256, an [ascii]
      each: the white space among them is TAB, LF, VT, FF, CR, SP and NBSP;
      [toUpperCase] maps a-z and the letters 224-254 (but 247) 32 code units
      down, and leaves the three letters 181, 223 and 255 as they are, their
      upper case lying outside these code units;
    - a [bigint] is a [Z]; [/] and [%] on bigints truncate towards zero
      ([Z.quot], [Z.rem]);
    - a [number] is an IEEE-754 double, kept as sign, integer significand and
      binary exponent; the results of [parseFloat] and of [10 ** decimals]
      are the doubles nearest to the exact values (ties to even);
    - an exception is a value of [completion]: [Throw SyntaxError] or
      [Throw RangeError];
    - [decimals] is a non-negative integer, a [nat];
    - [switchChain] and [sendTransaction], as the wagmi hooks return them,
      are the [mutate] of a mutation: they hand the request to the wallet,
      return undefined and never throw; the answer of the wallet comes back
      through the hook ([onSuccess], [isPending], the chain of
      [useChainId]). *)

From Stdlib Require Import ZArith Ascii String List Bool Lia.
Import ListNotations.
Open Scope Z_scope.

(** ** JavaScript built-ins used by the sources *)

Module JS.

Definition jsstring : Type := list ascii.

Definition lit (s : string) : jsstring := list_ascii_of_string s.

Inductive JSError : Type := SyntaxError | RangeError.

Inductive completion (A : Type) : Type :=
| Ok (a : A)
| Throw (e : JSError).

Arguments Ok {A} a.
Arguments Throw {A} e.

Definition bind {A B : Type} (c : completion A) (k : A -> completion B) : completion B :=
  match c with
  | Ok a => k a
  | Throw e => Throw e
  end.

Definition code (c : ascii) : Z := Z.of_N (N_of_ascii c).

Definition isDigit (c : ascii) : bool := (48 <=? code c) && (code c <=? 57).

Definition digitValue (c : ascii) : Z := code c - 48.

Definition digitChar (d : Z) : ascii := ascii_of_N (Z.to_N (d + 48)).

(** StrWhiteSpaceChar among the code units below 256: TAB, LF, VT, FF, CR,
    SP and NBSP. *)
Definition isWhiteSpace (c : ascii) : bool :=
  ((9 <=? code c) && (code c <=? 13)) || (code c =? 32) || (code c =? 160).

(** The code units below 256 whose upper case is another code unit below
    256: a to z, and the letters from 224 to 254 except the division sign.
    The upper case of the three letters 181, 223 and 255 lies outside these
    code units. *)
Definition isLowerCase (c : ascii) : bool :=
  ((97 <=? code c) && (code c <=? 122))
  || ((224 <=? code c) && (code c <=? 254) && negb (code c =? 247)).

(** [String.prototype.toUpperCase] on one code unit; 181, 223 and 255 are
    left as they are. *)
Definition toUpperCaseChar (c : ascii) : ascii :=
  if isLowerCase c then ascii_of_N (Z.to_N (code c - 32)) else c.

Definition toUpperCase (s : jsstring) : jsstring := map toUpperCaseChar s.

(** [/^\d+$/.test(s)] *)
Definition matchesDigits (s : jsstring) : bool :=
  match s with
  | [] => false
  | _ => forallb isDigit s
  end.

(** Value of a string of decimal digits, most significant first. *)
Definition digitsValue (s : jsstring) : Z :=
  fold_left (fun acc c => acc * 10 + digitValue c) s 0.

(** [s.split(sep)] for a one-character separator: never empty. *)
Fixpoint split (sep : ascii) (s : jsstring) : list jsstring :=
  match s with
  | [] => [[]]
  | c :: r =>
      if Ascii.eqb c sep then [] :: split sep r
      else match split sep r with
           | h :: t => (c :: h) :: t
           | [] => [[c]]
           end
  end.

Definition zeros (n : nat) : jsstring := repeat "0"%char n.

(** [s.padEnd(n, '0')] *)
Definition padEnd0 (s : jsstring) (n : nat) : jsstring := s ++ zeros (n - length s).

(** [s.padStart(n, '0')] *)
Definition padStart0 (s : jsstring) (n : nat) : jsstring := zeros (n - length s) ++ s.

(** [s.slice(0, n)] for [n >= 0] *)
Definition slice0 (s : jsstring) (n : nat) : jsstring := firstn n s.

Fixpoint dropLeadingZeros (s : jsstring) : jsstring :=
  match s with
  | c :: r => if Ascii.eqb c "0"%char then dropLeadingZeros r else s
  | [] => []
  end.

(** [s.replace(/0+$/, '')] *)
Definition stripTrailingZeros (s : jsstring) : jsstring :=
  rev (dropLeadingZeros (rev s)).

(** [s.charAt(0).toUpperCase() + s.slice(1)] *)
Definition capitalize (s : jsstring) : jsstring :=
  match s with
  | [] => []
  | c :: r => toUpperCaseChar c :: r
  end.

(** *** bigint *)

(** Decimal digits of a non-negative integer; [fuel] bounds the number of
    digits. *)
Fixpoint natDigits (fuel : nat) (n : Z) : jsstring :=
  match fuel with
  | O => []
  | S f =>
      if n <? 10 then [digitChar n]
      else natDigits f (n / 10) ++ [digitChar (n mod 10)]
  end.

(** A non-negative [n] has at most [log2 n + 1] decimal digits. *)
Definition digitFuel (n : Z) : nat := S (Z.to_nat (Z.log2 n)).

(** [BigInt.prototype.toString()] *)
Definition bigintToString (n : Z) : jsstring :=
  if n <? 0 then "-"%char :: natDigits (digitFuel (- n)) (- n)
  else natDigits (digitFuel n) n.

Definition trimStart (s : jsstring) : jsstring :=
  (fix go (s : jsstring) : jsstring :=
     match s with
     | c :: r => if isWhiteSpace c then go r else s
     | [] => []
     end) s.

Definition trim (s : jsstring) : jsstring := rev (trimStart (rev (trimStart s))).

Definition isHexDigit (c : ascii) : bool :=
  isDigit c || ((65 <=? code c) && (code c <=? 70)) || ((97 <=? code c) && (code c <=? 102)).

Definition hexDigitValue (c : ascii) : Z :=
  if isDigit c then code c - 48
  else if code c <=? 70 then code c - 55 else code c - 87.

Definition isOctalDigit (c : ascii) : bool := (48 <=? code c) && (code c <=? 55).

Definition isBinaryDigit (c : ascii) : bool := (48 <=? code c) && (code c <=? 49).

Definition radixValue (radix : Z) (s : jsstring) : Z :=
  fold_left (fun acc c => acc * radix + hexDigitValue c) s 0.

Definition radixLiteral (ok : ascii -> bool) (radix : Z) (s : jsstring) : completion Z :=
  match s with
  | [] => Throw SyntaxError
  | _ => if forallb ok s then Ok (radixValue radix s) else Throw SyntaxError
  end.

Definition decimalLiteral (s : jsstring) : completion Z :=
  if matchesDigits s then Ok (digitsValue s) else Throw SyntaxError.

(** NonDecimalIntegerLiteral: the prefixes 0x, 0o and 0b. *)
Definition nonDecimalLiteral (t : jsstring) : option (completion Z) :=
  match t with
  | z :: p :: d =>
      if Ascii.eqb z "0"%char then
        if Ascii.eqb p "x"%char || Ascii.eqb p "X"%char then
          Some (radixLiteral isHexDigit 16 d)
        else if Ascii.eqb p "o"%char || Ascii.eqb p "O"%char then
          Some (radixLiteral isOctalDigit 8 d)
        else if Ascii.eqb p "b"%char || Ascii.eqb p "B"%char then
          Some (radixLiteral isBinaryDigit 2 d)
        else None
      else None
  | _ => None
  end.

(** [BigInt(s)] for a string [s] (StringToBigInt): white space is trimmed,
    the empty string is [0n], decimal digits may carry a sign, and the
    prefixes 0x, 0o and 0b introduce unsigned literals of the other bases. *)
Definition BigIntOfString (s : jsstring) : completion Z :=
  match trim s with
  | [] => Ok 0
  | c :: r =>
      if Ascii.eqb c "+"%char then decimalLiteral r
      else if Ascii.eqb c "-"%char then bind (decimalLiteral r) (fun v => Ok (- v))
      else
        match nonDecimalLiteral (c :: r) with
        | Some v => v
        | None => decimalLiteral (c :: r)
        end
  end.

(** [a / b] and [a % b] on bigints: a zero divisor is a RangeError. *)
Definition bigintDiv (a b : Z) : completion Z :=
  if b =? 0 then Throw RangeError else Ok (Z.quot a b).

Definition bigintRem (a b : Z) : completion Z :=
  if b =? 0 then Throw RangeError else Ok (Z.rem a b).

(** *** number *)

(** [Finite neg m e] is [(-1)^neg * m * 2^e] with [0 <= m]. *)
Inductive Number : Type :=
| NaN
| Infinity (neg : bool)
| Finite (neg : bool) (m e : Z).

(** The integer nearest to [num / den], ties to even ([0 <= num], [0 < den]). *)
Definition roundHalfEven (num den : Z) : Z :=
  let q := num / den in
  let r := num mod den in
  if 2 * r <? den then q
  else if den <? 2 * r then q + 1
  else if Z.even q then q else q + 1.

(** [2^k <= p / q] *)
Definition pow2Le (k p q : Z) : bool :=
  if 0 <=? k then q * 2 ^ k <=? p else q <=? p * 2 ^ (- k).

(** [floor (log2 (p / q))] for positive [p] and [q]. *)
Definition floorLog2 (p q : Z) : Z :=
  let k := Z.log2 p - Z.log2 q in
  if pow2Le k p q then k else k - 1.

(** The double nearest to [p / q] for positive [p] and [q]: a significand of
    53 bits, exponents from -1074 (subnormal numbers) on, and Infinity from
    [2^1024] on. *)
Definition nearestDouble (neg : bool) (p q : Z) : Number :=
  let e := Z.max (floorLog2 p q - 52) (-1074) in
  let m := if 0 <=? e then roundHalfEven p (q * 2 ^ e)
           else roundHalfEven (p * 2 ^ (- e)) q in
  if (0 <=? e) && (2 ^ 1024 <=? m * 2 ^ e) then Infinity neg else Finite neg m e.

(** The number value of the decimal [m * 10^x], [0 <= m]. *)
Definition numberOfDecimal (neg : bool) (m x : Z) : Number :=
  if m =? 0 then Finite neg 0 0
  else if 0 <=? x then nearestDouble neg (m * 10 ^ x) 1
  else nearestDouble neg m (10 ^ (- x)).

(** [10 ** d] on numbers.  ECMAScript leaves the last bit of [**] to the
    implementation; it is taken here as the nearest double, which is the
    power of ten itself up to [10 ** 22].  On larger exponents an engine may
    return a neighbour of the nearest double; the statements below use the
    power up to [10 ** 24] only. *)
Definition pow10 (d : nat) : Number := nearestDouble false (10 ^ Z.of_nat d) 1.

(** [BigInt(x)] for a number [x]: a RangeError unless [x] is an integer. *)
Definition BigIntOfNumber (x : Number) : completion Z :=
  match x with
  | Finite neg m e =>
      let sgn := if neg then -1 else 1 in
      if 0 <=? e then Ok (sgn * (m * 2 ^ e))
      else if m mod 2 ^ (- e) =? 0 then Ok (sgn * (m / 2 ^ (- e)))
      else Throw RangeError
  | _ => Throw RangeError
  end.

(** [x > c] for a number [x] and an integer literal [c]. *)
Definition gtInteger (x : Number) (c : Z) : bool :=
  match x with
  | NaN => false
  | Infinity neg => negb neg
  | Finite neg m e =>
      let v := if neg then - m else m in
      if 0 <=? e then c <? v * 2 ^ e else c * 2 ^ (- e) <? v
  end.

Fixpoint spanDigits (s : jsstring) : jsstring * jsstring :=
  match s with
  | c :: r =>
      if isDigit c then let (d, t) := spanDigits r in (c :: d, t) else ([], s)
  | [] => ([], [])
  end.

Fixpoint startsWith (p s : jsstring) : bool :=
  match p, s with
  | [], _ => true
  | a :: p', b :: s' => Ascii.eqb a b && startsWith p' s'
  | _ :: _, [] => false
  end.

(** ExponentPart: [e] or [E], an optional sign and at least one digit; when
    the text does not continue this way no exponent is read. *)
Definition exponentPart (s : jsstring) : Z :=
  match s with
  | c :: r =>
      if Ascii.eqb c "e"%char || Ascii.eqb c "E"%char then
        match r with
        | sg :: r' =>
            if Ascii.eqb sg "+"%char then digitsValue (fst (spanDigits r'))
            else if Ascii.eqb sg "-"%char then - digitsValue (fst (spanDigits r'))
            else digitsValue (fst (spanDigits r))
        | [] => 0
        end
      else 0
  | [] => 0
  end.

(** The longest prefix that is a StrUnsignedDecimalLiteral, as a number. *)
Definition unsignedDecimalLiteral (neg : bool) (s : jsstring) : Number :=
  if startsWith (lit "Infinity") s then Infinity neg
  else
    let (ip, r1) := spanDigits s in
    let noFraction :=
      match ip with
      | [] => NaN
      | _ => numberOfDecimal neg (digitsValue ip) (exponentPart r1)
      end in
    match r1 with
    | c :: r2 =>
        if Ascii.eqb c "."%char then
          let (fp, r3) := spanDigits r2 in
          match ip, fp with
          | [], [] => NaN
          | _, _ => numberOfDecimal neg (digitsValue (ip ++ fp))
                      (exponentPart r3 - Z.of_nat (length fp))
          end
        else noFraction
    | [] => noFraction
    end.

(** [parseFloat(s)] *)
Definition parseFloat (s : jsstring) : Number :=
  match trimStart s with
  | c :: r =>
      if Ascii.eqb c "+"%char then unsignedDecimalLiteral false r
      else if Ascii.eqb c "-"%char then unsignedDecimalLiteral true r
      else unsignedDecimalLiteral false (c :: r)
  | [] => NaN
  end.

Fixpoint strEqb (a b : jsstring) : bool :=
  match a, b with
  | [], [] => true
  | x :: a', y :: b' => Ascii.eqb x y && strEqb a' b'
  | _, _ => false
  end.

End JS.

(** ** lib/tokenUtils.ts *)

Module TokenUtils.
Import JS.

Record TokenInfo : Type := {
  symbol : jsstring;
  decimals : nat;
  address : option jsstring
}.

(** Common token configurations for Arbitrum. *)
Definition ARBITRUM_TOKENS : list (jsstring * TokenInfo) :=
  [ (lit "ETH", {| symbol := lit "ETH"; decimals := 18; address := None |});
    (lit "USDC", {| symbol := lit "USDC"; decimals := 6;
                    address := Some (lit "0xaf88d065e77c8cC2239327C5EDb3A432268e5831") |});
    (lit "USDT", {| symbol := lit "USDT"; decimals := 6;
                    address := Some (lit "0xFd086bC7CD5C481DCC9C85ebE478A1C0b69FCbb9") |});
    (lit "WETH", {| symbol := lit "WETH"; decimals := 18;
                    address := Some (lit "0x82aF49447D8a07e3bd95BD0d56f35241523fBab1") |});
    (lit "ARB", {| symbol := lit "ARB"; decimals := 18;
                   address := Some (lit "0x912CE59144191C1204E64559FE8253a0e49E6548") |}) ].

(** [table[key]]: the own property [key], if any.  The keys looked up are
    upper-cased, and every property inherited from [Object.prototype] has a
    lower-case letter in its name, so only own properties are found. *)
Fixpoint lookup (key : jsstring) (table : list (jsstring * TokenInfo)) : option TokenInfo :=
  match table with
  | [] => None
  | (k, v) :: rest => if strEqb k key then Some v else lookup key rest
  end.

(** Get token info by symbol. *)
Definition getTokenInfo (symbol : jsstring) : TokenInfo :=
  let upperSymbol := toUpperCase symbol in
  match lookup upperSymbol ARBITRUM_TOKENS with
  | Some info => info
  | None => {| symbol := upperSymbol; decimals := 18; address := None |}
  end.

(** The argument [amount: string | bigint] of [formatTokenAmount]. *)
Inductive amountArg : Type :=
| AmountString (s : jsstring)
| AmountBigInt (n : Z).

(** Format token amount for display (from wei/smallest unit to human
    readable). *)
Definition formatTokenAmount (amount : amountArg) (decimals : nat) : completion jsstring :=
  bind (match amount with
        | AmountString s => BigIntOfString s
        | AmountBigInt n => Ok n
        end) (fun amountBigInt =>
  bind (BigIntOfNumber (pow10 decimals)) (fun divisor =>
  bind (bigintDiv amountBigInt divisor) (fun wholePart =>
  bind (bigintRem amountBigInt divisor) (fun fractionalPart =>
  if fractionalPart =? 0 then Ok (bigintToString wholePart)
  else
    let fractionalStr :=
      stripTrailingZeros (padStart0 (bigintToString fractionalPart) decimals) in
    Ok (bigintToString wholePart ++ "."%char :: fractionalStr))))).

(** Parse token amount from human readable to wei/smallest unit. *)
Definition parseTokenAmount (amount : jsstring) (decimals : nat) : completion Z :=
  let parts := split "."%char amount in
  let wholePart := nth 0 parts (lit "0") in
  let fractionalPart := nth 1 parts [] in
  let paddedFractional := slice0 (padEnd0 fractionalPart decimals) decimals in
  bind (BigIntOfString wholePart) (fun whole =>
  let wholeBigInt := whole * 10 ^ Z.of_nat decimals in
  bind (BigIntOfString paddedFractional) (fun fractionalBigInt =>
  Ok (wholeBigInt + fractionalBigInt))).

(** Validate if an amount string is valid for a token. *)
Definition isValidTokenAmount (amount : jsstring) (decimals : nat) : bool :=
  match split "."%char amount with
  | wholePart :: rest =>
      if negb (matchesDigits wholePart) then false
      else
        match rest with
        | fractionalPart :: _ =>
            if negb (matchesDigits fractionalPart) then false
            else if (decimals <? length fractionalPart)%nat then false
            else true
        | [] => true
        end
  | [] => false
  end.

Record TxStep : Type := {
  to : jsstring;
  data : jsstring;
  value : jsstring;
  stepChainId : jsstring
}.

Record TransactionData : Type := {
  tokenName : jsstring;
  amount : jsstring;
  action : jsstring;
  chainId : jsstring;
  txPlan : list TxStep
}.

(** Format transaction data amounts for proper display. *)
Definition formatTransactionData (data : TransactionData) : completion TransactionData :=
  let tokenInfo := getTokenInfo (tokenName data) in
  let numericAmount := parseFloat (amount data) in
  bind (if gtInteger numericAmount 1000000 then
          bind (BigIntOfString (nth 0 (split "."%char (amount data)) []))
               (fun n => formatTokenAmount (AmountBigInt n) (decimals tokenInfo))
        else Ok (amount data)) (fun formattedAmount =>
  Ok {| tokenName := tokenName data;
        amount := formattedAmount;
        action := action data;
        chainId := chainId data;
        txPlan := txPlan data |}).

(** Helper to create a readable transaction summary. *)
Definition createTransactionSummary (data : TransactionData) : completion jsstring :=
  let tokenInfo := getTokenInfo (tokenName data) in
  bind (formatTransactionData data) (fun formattedData =>
  Ok (capitalize (action formattedData) ++ " "%char :: amount formattedData
        ++ " "%char :: symbol tokenInfo)).

End TokenUtils.

(** ** components/ui/tabs/ChatTab.tsx

    The component is event driven: a handler runs to completion on a user
    action or a wallet callback, React renders, and the confirmation effect
    runs when one of its dependencies changed.  The wallet and the agent are
    collaborators: what they answer, and the account and chain the wallet
    reports, are inputs of the model; their invocations are recorded, with
    the chat messages, in [log] (oldest first). *)

Module ChatTab.
Import JS TokenUtils.

(** [arbitrum.id] of wagmi/chains. *)
Definition arbitrum_id : Z := 42161.

Inductive MessageType : Type := user | assistant | system.

Inductive StepType : Type := Approval | Supply.

(** The texts passed to [addMessage], one constructor per call site. *)
Inductive Content : Type :=
| ConnectWalletFirst
| SwitchingToArbitrum
| SwitchedToArbitrum
| SwitchFailed
| UserText (text : jsstring)
| AssistantText (text : jsstring)
| TransactionSummary (summary : jsstring)
| PositionSummary
| CouldNotProcess
| RequestFailed
| SendingStep (stepType : StepType) (number total : nat)
| StepSent (stepType : StepType) (hash : jsstring) (nextStepType : StepType)
| FinalSent (hash : jsstring)
| TransactionFailed
| TransactionCancelled
| TransactionConfirmed (summary : jsstring).

Inductive Effect : Type :=
| AddMessage (type : MessageType) (content : Content)
| SwitchChain (chainId : Z)
| Fetch (instruction : jsstring) (userAddress : option jsstring)
| SendTransaction (to data : jsstring) (value : Z).

Record State : Type := {
  log : list Effect;
  inputValue : jsstring;
  isLoading : bool;
  pendingTransaction : option TransactionData;
  (* identity of the object held in [pendingTransaction] *)
  planRef : nat;
  currentTxIndex : nat;
  txHash : option jsstring;
  (* useAccount, useChainId *)
  address : option jsstring;
  isConnected : bool;
  chainId : Z;
  (* useSendTransaction: the request in the wallet, with the
     [currentTxIndex] and [pendingTransaction] its [onSuccess] closed over *)
  sending : option (nat * TransactionData);
  (* useWaitForTransactionReceipt: hashes whose receipt has arrived *)
  receipts : list jsstring
}.

Definition initialState : State :=
  {| log := []; inputValue := []; isLoading := false;
     pendingTransaction := None; planRef := 0%nat; currentTxIndex := 0%nat;
     txHash := None; address := None; isConnected := false; chainId := 1;
     sending := None; receipts := [] |}.

Definition addMessage (type : MessageType) (content : Content) (s : State) : State :=
  {| log := log s ++ [AddMessage type content]; inputValue := inputValue s;
     isLoading := isLoading s; pendingTransaction := pendingTransaction s;
     planRef := planRef s; currentTxIndex := currentTxIndex s; txHash := txHash s;
     address := address s; isConnected := isConnected s; chainId := chainId s;
     sending := sending s; receipts := receipts s |}.

Definition call (e : Effect) (s : State) : State :=
  {| log := log s ++ [e]; inputValue := inputValue s;
     isLoading := isLoading s; pendingTransaction := pendingTransaction s;
     planRef := planRef s; currentTxIndex := currentTxIndex s; txHash := txHash s;
     address := address s; isConnected := isConnected s; chainId := chainId s;
     sending := sending s; receipts := receipts s |}.

Definition setInputValue (v : jsstring) (s : State) : State :=
  {| log := log s; inputValue := v;
     isLoading := isLoading s; pendingTransaction := pendingTransaction s;
     planRef := planRef s; currentTxIndex := currentTxIndex s; txHash := txHash s;
     address := address s; isConnected := isConnected s; chainId := chainId s;
     sending := sending s; receipts := receipts s |}.

Definition setIsLoading (v : bool) (s : State) : State :=
  {| log := log s; inputValue := inputValue s;
     isLoading := v; pendingTransaction := pendingTransaction s;
     planRef := planRef s; currentTxIndex := currentTxIndex s; txHash := txHash s;
     address := address s; isConnected := isConnected s; chainId := chainId s;
     sending := sending s; receipts := receipts s |}.

(** [setPendingTransaction(v)]: a plan stored is a new object. *)
Definition setPendingTransaction (v : option TransactionData) (s : State) : State :=
  {| log := log s; inputValue := inputValue s;
     isLoading := isLoading s; pendingTransaction := v;
     planRef := match v with Some _ => S (planRef s) | None => planRef s end;
     currentTxIndex := currentTxIndex s; txHash := txHash s;
     address := address s; isConnected := isConnected s; chainId := chainId s;
     sending := sending s; receipts := receipts s |}.

Definition setCurrentTxIndex (v : nat) (s : State) : State :=
  {| log := log s; inputValue := inputValue s;
     isLoading := isLoading s; pendingTransaction := pendingTransaction s;
     planRef := planRef s; currentTxIndex := v; txHash := txHash s;
     address := address s; isConnected := isConnected s; chainId := chainId s;
     sending := sending s; receipts := receipts s |}.

Definition setTxHash (v : option jsstring) (s : State) : State :=
  {| log := log s; inputValue := inputValue s;
     isLoading := isLoading s; pendingTransaction := pendingTransaction s;
     planRef := planRef s; currentTxIndex := currentTxIndex s; txHash := v;
     address := address s; isConnected := isConnected s; chainId := chainId s;
     sending := sending s; receipts := receipts s |}.

Definition setSending (v : option (nat * TransactionData)) (s : State) : State :=
  {| log := log s; inputValue := inputValue s;
     isLoading := isLoading s; pendingTransaction := pendingTransaction s;
     planRef := planRef s; currentTxIndex := currentTxIndex s; txHash := txHash s;
     address := address s; isConnected := isConnected s; chainId := chainId s;
     sending := v; receipts := receipts s |}.

Definition setWallet (connected : bool) (chain : Z) (addr : option jsstring) (s : State) : State :=
  {| log := log s; inputValue := inputValue s;
     isLoading := isLoading s; pendingTransaction := pendingTransaction s;
     planRef := planRef s; currentTxIndex := currentTxIndex s; txHash := txHash s;
     address := addr; isConnected := connected; chainId := chain;
     sending := sending s; receipts := receipts s |}.

Definition addReceipt (h : jsstring) (s : State) : State :=
  {| log := log s; inputValue := inputValue s;
     isLoading := isLoading s; pendingTransaction := pendingTransaction s;
     planRef := planRef s; currentTxIndex := currentTxIndex s; txHash := txHash s;
     address := address s; isConnected := isConnected s; chainId := chainId s;
     sending := sending s; receipts := h :: receipts s |}.

(** [isPending] of useSendTransaction. *)
Definition isTxPending (s : State) : bool :=
  match sending s with Some _ => true | None => false end.

(** [isSuccess] of useWaitForTransactionReceipt({hash: txHash}). *)
Definition isTxConfirmed (s : State) : bool :=
  match txHash s with
  | Some h => existsb (strEqb h) (receipts s)
  | None => false
  end.

(** Truthiness of [txHash]: neither null nor the empty string. *)
Definition hasTxHash (s : State) : bool :=
  match txHash s with
  | Some (_ :: _) => true
  | _ => false
  end.

(** What the agent collaborator answered to one request: the data of the
    first artifact is a transaction ([txPreview] with its [txPlan]), a list
    of positions, or something else. *)
Inductive Artifact : Type :=
| TxArtifact (rawTransactionData : TransactionData)
| PositionsArtifact
| OtherArtifact.

(** The request throws, the response is not [ok], the result is not a
    completed success, or it is one, with its text and first artifact. *)
Inductive AgentOutcome : Type :=
| RequestThrows
| ResponseNotOk
| NotCompleted
| Completed (text : jsstring) (artifact : option Artifact).

(** The part of [handleSubmit] after the request to the agent. *)
Definition handleAgentOutcome (ag : AgentOutcome) (s : State) : State :=
  match ag with
  | RequestThrows | ResponseNotOk => addMessage system RequestFailed s
  | NotCompleted => addMessage assistant CouldNotProcess s
  | Completed text None => addMessage assistant (AssistantText text) s
  | Completed text (Some artifact) =>
      let s1 := addMessage assistant (AssistantText text) s in
      match artifact with
      | TxArtifact rawTransactionData =>
          match formatTransactionData rawTransactionData with
          | Throw _ => addMessage system RequestFailed s1
          | Ok formattedTransactionData =>
              match createTransactionSummary formattedTransactionData with
              | Throw _ => addMessage system RequestFailed s1
              | Ok summary =>
                  setCurrentTxIndex 0
                    (setPendingTransaction (Some formattedTransactionData)
                       (addMessage system (TransactionSummary summary) s1))
              end
          end
      | PositionsArtifact => addMessage system PositionSummary s1
      | OtherArtifact => s1
      end
  end.

(** The part of [handleSubmit] after the guards: the instruction goes to
    the agent. *)
Definition issueInstruction (userMessage : jsstring) (ag : AgentOutcome) (s : State) : State :=
  let s1 := setIsLoading true
              (setInputValue [] (addMessage user (UserText userMessage) s)) in
  let s2 := call (Fetch userMessage (address s1)) s1 in
  setIsLoading false (handleAgentOutcome ag s2).

(** [switchChain] of useSwitchChain is the [mutate] of the mutation: it
    hands the request to the wallet and returns undefined, and what the
    wallet does with the request is reported to the hook, not to the caller.
    So [await switchChain(...)] never throws, the [catch] with its message
    [SwitchFailed] is never entered, and the handler goes on with the chain
    it was called with; a change of chain arrives later, as a
    [WalletStatus]. *)
Definition handleSubmit (ag : AgentOutcome) (s : State) : State :=
  match trim (inputValue s) with
  | [] => s
  | userMessage =>
      if isLoading s then s
      else if negb (isConnected s) then addMessage system ConnectWalletFirst s
      else if chainId s =? arbitrum_id then issueInstruction userMessage ag s
      else
        let s1 := call (SwitchChain arbitrum_id)
                    (addMessage system SwitchingToArbitrum s) in
        issueInstruction userMessage ag (addMessage system SwitchedToArbitrum s1)
  end.

(** The [catch] of [handleTransactionApprove].  [sendTransaction] of
    useSendTransaction is a [mutate] as well and does not throw; the [catch]
    is entered when [BigInt] throws on the value of the step. *)
Definition approveFailed (s : State) : State :=
  setCurrentTxIndex 0
    (setPendingTransaction None (addMessage system TransactionFailed s)).

Definition handleTransactionApprove (s : State) : State :=
  match pendingTransaction s with
  | None => s
  | Some plan =>
      match nth_error (txPlan plan) (currentTxIndex s) with
      | None => s
      | Some currentTx =>
          let stepType := if (currentTxIndex s =? 0)%nat then Approval else Supply in
          let s1 := addMessage system
                      (SendingStep stepType (currentTxIndex s + 1) (length (txPlan plan))) s in
          match BigIntOfString (match value currentTx with
                                | [] => lit "0"
                                | v => v
                                end) with
          | Throw _ => approveFailed s1
          | Ok v =>
              setSending (Some (currentTxIndex s, plan))
                (call (SendTransaction (to currentTx) (data currentTx) v) s1)
          end
      end
  end.

(** [onSuccess] of the request sent at index [index] of [plan]. *)
Definition onSuccess (index : nat) (plan : TransactionData) (hash : jsstring) (s : State) : State :=
  let stepType := if (index =? 0)%nat then Approval else Supply in
  let s1 := setTxHash (Some hash) s in
  if (index + 1 <? length (txPlan plan))%nat then
    let nextStepType := if (index + 1 =? 0)%nat then Approval else Supply in
    addMessage system (StepSent stepType hash nextStepType)
      (setCurrentTxIndex (index + 1) s1)
  else addMessage system (FinalSent hash) s1.

Definition handleTransactionReject (s : State) : State :=
  addMessage system TransactionCancelled
    (setCurrentTxIndex 0 (setPendingTransaction None s)).

(** The effect on [isTxConfirmed, txHash, pendingTransaction, currentTxIndex]. *)
Definition confirmationEffect (s : State) : State :=
  match pendingTransaction s with
  | Some plan =>
      if isTxConfirmed s && hasTxHash s then
        match createTransactionSummary plan with
        | Throw _ => s
        | Ok summary =>
            let s1 := addMessage system (TransactionConfirmed summary) s in
            if (currentTxIndex s + 1 <? length (txPlan plan))%nat then s1
            else setTxHash None (setCurrentTxIndex 0 (setPendingTransaction None s1))
        end
      else s
  | None => s
  end.

Definition optionStrEqb (a b : option jsstring) : bool :=
  match a, b with
  | Some x, Some y => strEqb x y
  | None, None => true
  | _, _ => false
  end.

Definition samePlanObject (a b : State) : bool :=
  match pendingTransaction a, pendingTransaction b with
  | Some _, Some _ => (planRef a =? planRef b)%nat
  | None, None => true
  | _, _ => false
  end.

(** Whether a dependency of the confirmation effect differs between two
    renders. *)
Definition depsChanged (old new : State) : bool :=
  negb (Bool.eqb (isTxConfirmed old) (isTxConfirmed new)
        && optionStrEqb (txHash old) (txHash new)
        && samePlanObject old new
        && (currentTxIndex old =? currentTxIndex new)%nat).

(** The renders that follow a handler: the effect runs when a dependency
    changed, and once more when the effect itself changed one. *)
Definition render (old new : State) : State :=
  if depsChanged old new then
    let s1 := confirmationEffect new in
    if depsChanged new s1 then confirmationEffect s1 else s1
  else new.

(** What can happen to the component: the user types, the wallet changes
    its account or chain, the form is submitted (with what the agent will
    answer), a button of the preview is clicked, the wallet answers the
    pending request with a hash ([onSuccess]) or with an error (the request
    is no longer pending; no callback is registered for it), the receipt of
    the transaction [txHash] arrives. *)
Inductive Event : Type :=
| TypeInput (text : jsstring)
| WalletStatus (connected : bool) (chain : Z) (addr : option jsstring)
| SubmitForm (ag : AgentOutcome)
| ClickApprove
| ClickReject
| WalletHash (hash : jsstring)
| WalletError
| ReceiptObserved.

(** The submit button and the input are disabled. *)
Definition formDisabled (s : State) : bool :=
  isLoading s || negb (isConnected s) || negb (chainId s =? arbitrum_id).

(** The transaction preview is rendered with enabled buttons. *)
Definition previewEnabled (s : State) : bool :=
  match pendingTransaction s with
  | Some _ => negb (isTxPending s)
  | None => false
  end.

(** One event reaches its handler; a disabled control delivers none. *)
Definition handle (ev : Event) (s : State) : State :=
  match ev with
  | TypeInput text => if formDisabled s then s else setInputValue text s
  | WalletStatus connected chain addr => setWallet connected chain addr s
  | SubmitForm ag => if formDisabled s then s else handleSubmit ag s
  | ClickApprove => if previewEnabled s then handleTransactionApprove s else s
  | ClickReject => if previewEnabled s then handleTransactionReject s else s
  | WalletHash hash =>
      match sending s with
      | Some (index, plan) => onSuccess index plan hash (setSending None s)
      | None => s
      end
  | WalletError => setSending None s
  | ReceiptObserved =>
      match txHash s with
      | Some h => if isTxConfirmed s then s else addReceipt h s
      | None => s
      end
  end.

Definition step (s : State) (ev : Event) : State := render s (handle ev s).

Definition run (s : State) (evs : list Event) : State := fold_left step evs s.

(** Entries of the log: a transaction sent to the wallet, a request to
    switch the network, the report of a confirmation. *)
Definition isSendTransaction (e : Effect) : bool :=
  match e with SendTransaction _ _ _ => true | _ => false end.


Definition isConfirmation (e : Effect) : bool :=
  match e with AddMessage _ (TransactionConfirmed _) => true | _ => false end.

(** The machine is idle: no plan in the slot, step index 0. *)
Definition idle (s : State) : bool :=
  match pendingTransaction s with
  | None => (currentTxIndex s =? 0)%nat
  | Some _ => false
  end.

End ChatTab.

(** ** Vocabulary of the statements *)

Module Terms.
Import JS TokenUtils.

(** The text before the first decimal point. *)
Definition integerPart (amount : jsstring) : jsstring :=
  nth 0 (split "."%char amount) [].

(** The text between the first and the second decimal point, if there is a
    decimal point. *)
Definition fractionalPart (amount : jsstring) : option jsstring :=
  nth_error (split "."%char amount) 1.

Definition fractionOrEmpty (amount : jsstring) : jsstring :=
  match fractionalPart amount with
  | Some f => f
  | None => []
  end.

(** The integer part matches [^\d+$], and so does the fractional part when
    there is one. *)
Definition validAmount (amount : jsstring) : bool :=
  matchesDigits (integerPart amount)
  && match fractionalPart amount with
     | Some f => matchesDigits f
     | None => true
     end.

(** A display amount: digits, or digits, one decimal point and digits. *)
Definition isDisplayAmount (amount : jsstring) : bool :=
  match split "."%char amount with
  | [w] => matchesDigits w
  | [w; f] => matchesDigits w && matchesDigits f
  | _ => false
  end.

(** A digit string that [toString] can produce: no leading zero, or "0". *)
Definition canonicalDigits (s : jsstring) : bool :=
  match s with
  | [] => false
  | [c] => isDigit c
  | c :: r => isDigit c && negb (Ascii.eqb c "0"%char) && forallb isDigit r
  end.

Definition endsInZero (s : jsstring) : bool :=
  match rev s with
  | c :: _ => Ascii.eqb c "0"%char
  | [] => false
  end.

Definition fractionFits (amount : jsstring) (decimals : nat) : bool :=
  (length (fractionOrEmpty amount) <=? decimals)%nat.

Definition noTrailingZero (amount : jsstring) : bool :=
  negb (endsInZero (fractionOrEmpty amount)).

Definition noLeadingZero (amount : jsstring) : bool :=
  canonicalDigits (integerPart amount).

(** [toDisplayUnits(toBaseUnits(x, decimals), decimals)] *)
Definition roundTrip (x : jsstring) (decimals : nat) : completion jsstring :=
  bind (parseTokenAmount x decimals)
       (fun base => formatTokenAmount (AmountBigInt base) decimals).

(** [{...data, amount: a}] *)
Definition withAmount (data : TransactionData) (a : jsstring) : TransactionData :=
  {| tokenName := tokenName data; amount := a; action := action data;
     TokenUtils.chainId := TokenUtils.chainId data; txPlan := txPlan data |}.

End Terms.

(** ** Sample inputs *)

Module Samples.
Import JS TokenUtils ChatTab.

(** A request to supply [amount] of [token], without plan. *)
Definition supplyOf (token amount : string) : TransactionData :=
  {| tokenName := lit token; TokenUtils.amount := lit amount; action := lit "supply";
     TokenUtils.chainId := lit "42161"; txPlan := [] |}.

(** A plan of two steps: an allowance, then the supply that consumes it. *)
Definition approveStep : TxStep :=
  {| to := lit "0xaf88d065e77c8cC2239327C5EDb3A432268e5831";
     data := lit "0x095ea7b3"; value := lit "0"; stepChainId := lit "42161" |}.

Definition supplyStep : TxStep :=
  {| to := lit "0x794a61358D6845594F94dc1DB02A252b5b4814aD";
     data := lit "0x617ba037"; value := lit ""; stepChainId := lit "42161" |}.

Definition twoStepPlan : TransactionData :=
  {| tokenName := lit "USDC"; TokenUtils.amount := lit "0.1"; action := lit "supply";
     TokenUtils.chainId := lit "42161"; txPlan := [approveStep; supplyStep] |}.

(** The wallet is connected on Arbitrum, the user asks to supply 0.1 USDC and
    the agent answers with the two-step plan. *)
Definition planReceived : State :=
  run initialState
    [ WalletStatus true arbitrum_id (Some (lit "0x1111"));
      TypeInput (lit "Supply 0.1 USDC");
      SubmitForm
        (Completed (lit "Transaction plan created.") (Some (TxArtifact twoStepPlan))) ].


Definition isMessage (e : Effect) : bool :=
  match e with AddMessage _ _ => true | _ => false end.

(** The messages of a rejection or of a failed submission. *)
Definition isCancelOrFailure (e : Effect) : bool :=
  match e with
  | AddMessage _ TransactionCancelled | AddMessage _ TransactionFailed => true
  | _ => false
  end.

End Samples.

(** ** app/api/lending-agent/route.ts

    The route forwards an instruction to the external agent.  The body of
    the request and the answer of the agent are inputs of the model; the
    request sent to the agent is part of the result. *)

Module Route.
Import JS.

(** JSON values, as far as the route looks at them. *)
#[warnings="-register-all"] Inductive Json : Type :=
| JUndefined
| JNull
| JBool (b : bool)
| JNumber (x : Number)
| JString (s : jsstring)
| JArray (items : list Json)
| JObject (fields : list (jsstring * Json)).

(** [!v] is false. *)
Definition truthy (v : Json) : bool :=
  match v with
  | JUndefined | JNull => false
  | JBool b => b
  | JNumber NaN => false
  | JNumber (Finite _ m _) => negb (m =? 0)
  | JNumber (Infinity _) => true
  | JString [] => false
  | JString (_ :: _) => true
  | JArray _ | JObject _ => true
  end.

(** The members of an object are kept in the order of the JSON text; a later
    member of the same name replaces an earlier one, as in [JSON.parse]. *)
Definition field (name : jsstring) (fields : list (jsstring * Json)) : Json :=
  fold_left (fun found member => if strEqb (fst member) name then snd member else found)
    fields JUndefined.

(** [body.name] in [const { name } = body]: a TypeError on null and
    undefined, undefined on the other values that are not objects. *)
Definition property (name : jsstring) (body : Json) : option Json :=
  match body with
  | JUndefined | JNull => None
  | JObject fields => Some (field name fields)
  | _ => Some JUndefined
  end.

(** What [req.json()] gives: a value, or an exception. *)
Inductive BodyOutcome : Type :=
| BodyThrows
| Body (value : Json).

(** What the external agent answers: the request fails, or a response comes
    with its [ok] flag and, from [response.json()], a value or an
    exception. *)
Inductive UpstreamOutcome : Type :=
| UpstreamThrows
| UpstreamResponse (ok : bool) (json : option Json).

Record Response : Type := {
  status : Z;
  payload : Json
}.

(** The body of the request to the external agent. *)
Record AgentRequest : Type := {
  instruction : Json;
  userAddress : Json
}.

Definition errorResponse (code : Z) (message : string) : Response :=
  {| status := code; payload := JObject [(lit "error", JString (lit message))] |}.

Definition POST (req : BodyOutcome) (upstream : UpstreamOutcome)
  : Response * option AgentRequest :=
  let failed := errorResponse 500 "Failed to process lending agent request" in
  match req with
  | BodyThrows => (failed, None)
  | Body body =>
      match property (lit "instruction") body, property (lit "userAddress") body with
      | Some instruction, Some userAddress =>
          if negb (truthy instruction) || negb (truthy userAddress) then
            (errorResponse 400 "Missing instruction or userAddress", None)
          else
            let sent := Some {| instruction := instruction; userAddress := userAddress |} in
            match upstream with
            | UpstreamThrows => (failed, sent)
            | UpstreamResponse false _ => (failed, sent)
            | UpstreamResponse true None => (failed, sent)
            | UpstreamResponse true (Some JUndefined) =>
                (* [Response.json] throws on a value without JSON text *)
                (failed, sent)
            | UpstreamResponse true (Some data) => ({| status := 200; payload := data |}, sent)
            end
      | _, _ => (failed, None)
      end
  end.

(** The body [handleSubmit] of the chat tab sends to the route, as
    [req.json()] reads it back: [JSON.stringify] leaves out a member whose
    value is undefined. *)
Definition requestBody (instruction : jsstring) (userAddress : option jsstring) : Json :=
  JObject ((lit "instruction", JString instruction)
           :: match userAddress with
              | Some a => [(lit "userAddress", JString a)]
              | None => []
              end).

(** The request passes the check of the route and [r] is what it forwards. *)
Definition accepted (req : BodyOutcome) (r : AgentRequest) : Prop :=
  exists body,
    req = Body body
    /\ property (lit "instruction") body = Some (instruction r)
    /\ property (lit "userAddress") body = Some (userAddress r)
    /\ truthy (instruction r) = true /\ truthy (userAddress r) = true.

End Route.

(** ** More sample inputs *)

Module MoreSamples.
Import JS TokenUtils ChatTab Samples.

Definition threeStepPlan : TransactionData :=
  {| tokenName := lit "USDC"; TokenUtils.amount := lit "0.1"; action := lit "supply";
     TokenUtils.chainId := lit "42161";
     txPlan := [approveStep; supplyStep; supplyStep] |}.

Definition oneStepPlan : TransactionData :=
  {| tokenName := lit "ETH"; TokenUtils.amount := lit "1"; action := lit "borrow";
     TokenUtils.chainId := lit "42161"; txPlan := [supplyStep] |}.

(** A plan whose first step carries a value that is not a number. *)
Definition brokenPlan : TransactionData :=
  {| tokenName := lit "ETH"; TokenUtils.amount := lit "1"; action := lit "supply";
     TokenUtils.chainId := lit "42161";
     txPlan := [ {| to := lit "0x794a61358D6845594F94dc1DB02A252b5b4814aD";
                    data := lit "0x"; value := lit "1 ETH"; stepChainId := lit "42161" |} ] |}.

Definition emptyPlan : TransactionData :=
  {| tokenName := lit "ETH"; TokenUtils.amount := lit "1"; action := lit "supply";
     TokenUtils.chainId := lit "42161"; txPlan := [] |}.

Definition ready : State :=
  run initialState
    [ WalletStatus true arbitrum_id (Some (lit "0x1111"));
      TypeInput (lit "go") ].

(** The agent has answered [ready] with [plan]. *)
Definition offered (plan : TransactionData) : State :=
  step ready (SubmitForm
                (Completed (lit "Transaction plan created.") (Some (TxArtifact plan)))).

(** The first step of the three-step plan was sent and confirmed, then the
    user rejected the rest and typed a new instruction: [txHash] still holds
    the confirmed hash. *)
Definition afterReject : State :=
  run (offered threeStepPlan)
    [ ClickApprove; WalletHash (lit "0xaaa1"); ReceiptObserved; ClickReject;
      TypeInput (lit "Borrow 1 ETH") ].

End MoreSamples.

Module Traces.
Import ChatTab.

Definition isApproveClick (ev : Event) : bool :=
  match ev with
  | ClickApprove => true
  | _ => false
  end.

(** The clicks on the approve button in a sequence of events. *)
Definition approvals (evs : list Event) : nat := length (filter isApproveClick evs).

(** The transactions handed to the wallet so far. *)
Definition sent (s : State) : nat := length (filter isSendTransaction (log s)).

End Traces.

(** * Properties *)

Import JS TokenUtils Terms.

(** ** Characters and digit strings *)

Section Characters.

Lemma code_range (c : ascii) : 0 <= code c < 256.
Proof.
  unfold code. pose proof (N_ascii_bounded c) as H. lia.
Qed.

Lemma code_inj (a b : ascii) : code a = code b -> a = b.
Proof.
  unfold code. intros H.
  rewrite <- (ascii_N_embedding a), <- (ascii_N_embedding b).
  f_equal. lia.
Qed.

Lemma isDigit_range (c : ascii) : isDigit c = true <-> 48 <= code c <= 57.
Proof.
  unfold isDigit. rewrite andb_true_iff, !Z.leb_le. tauto.
Qed.

Lemma digitValue_range (c : ascii) : isDigit c = true -> 0 <= digitValue c <= 9.
Proof.
  rewrite isDigit_range. unfold digitValue. lia.
Qed.

Lemma digitChar_digitValue (c : ascii) : isDigit c = true -> digitChar (digitValue c) = c.
Proof.
  intros _. unfold digitChar, digitValue.
  replace (code c - 48 + 48) with (code c) by lia.
  unfold code. rewrite N2Z.id. apply ascii_N_embedding.
Qed.

Lemma code_digitChar (d : Z) : 0 <= d <= 9 -> code (digitChar d) = d + 48.
Proof.
  intros H. unfold code, digitChar.
  rewrite N_ascii_embedding by lia. lia.
Qed.

Lemma isDigit_digitChar (d : Z) : 0 <= d <= 9 -> isDigit (digitChar d) = true.
Proof.
  intros H. apply isDigit_range. rewrite code_digitChar; lia.
Qed.

Lemma digitValue_digitChar (d : Z) : 0 <= d <= 9 -> digitValue (digitChar d) = d.
Proof.
  intros H. unfold digitValue. rewrite code_digitChar; lia.
Qed.

Lemma eqb_code (a b : ascii) : Ascii.eqb a b = (code a =? code b).
Proof.
  destruct (Ascii.eqb a b) eqn:E.
  - apply Ascii.eqb_eq in E. subst. symmetry. apply Z.eqb_refl.
  - symmetry. apply Z.eqb_neq. intros H. apply code_inj in H.
    apply Ascii.eqb_neq in E. contradiction.
Qed.

Lemma isDigit_eqb_false (c x : ascii) :
  isDigit c = true -> isDigit x = false -> Ascii.eqb c x = false.
Proof.
  intros Hc Hx. apply Ascii.eqb_neq. intros ->. congruence.
Qed.

Lemma isDigit_not_space (c : ascii) : isDigit c = true -> isWhiteSpace c = false.
Proof.
  rewrite isDigit_range. intros H. unfold isWhiteSpace.
  apply orb_false_iff. split; [apply orb_false_iff; split|].
  - apply andb_false_iff. right. apply Z.leb_gt. lia.
  - apply Z.eqb_neq. lia.
  - apply Z.eqb_neq. lia.
Qed.

Lemma zero_char_value (c : ascii) :
  isDigit c = true -> Ascii.eqb c "0"%char = false -> 1 <= digitValue c.
Proof.
  rewrite isDigit_range, eqb_code. intros H E.
  apply Z.eqb_neq in E. change (code "0"%char) with 48 in E.
  unfold digitValue. lia.
Qed.

Lemma isLowerCase_range (c : ascii) :
  isLowerCase c = true
  <-> 97 <= code c <= 122 \/ (224 <= code c <= 254 /\ code c <> 247).
Proof.
  unfold isLowerCase.
  rewrite orb_true_iff, !andb_true_iff, negb_true_iff, !Z.leb_le, Z.eqb_neq.
  tauto.
Qed.

Lemma toUpperCaseChar_fixed (c : ascii) :
  isLowerCase c = false -> toUpperCaseChar c = c.
Proof.
  intros H. unfold toUpperCaseChar. rewrite H. reflexivity.
Qed.

Lemma toUpperCaseChar_idempotent (c : ascii) :
  toUpperCaseChar (toUpperCaseChar c) = toUpperCaseChar c.
Proof.
  apply toUpperCaseChar_fixed.
  unfold toUpperCaseChar.
  destruct (isLowerCase c) eqn:E; [|exact E].
  apply isLowerCase_range in E.
  assert (Hcode : code (ascii_of_N (Z.to_N (code c - 32))) = code c - 32).
  { unfold code at 1. rewrite N_ascii_embedding by (unfold code in *; lia).
    unfold code in *. lia. }
  apply not_true_is_false. rewrite isLowerCase_range, Hcode. lia.
Qed.

Lemma toUpperCase_idempotent (s : jsstring) : toUpperCase (toUpperCase s) = toUpperCase s.
Proof.
  unfold toUpperCase. rewrite map_map.
  apply map_ext. intros c. apply toUpperCaseChar_idempotent.
Qed.

Lemma strEqb_eq (a b : jsstring) : strEqb a b = true <-> a = b.
Proof.
  revert b. induction a as [|x a IH]; intros [|y b]; simpl; split; try congruence.
  - intros H. apply andb_true_iff in H. destruct H as [H1 H2].
    apply Ascii.eqb_eq in H1. apply IH in H2. congruence.
  - intros H. injection H as -> ->.
    rewrite Ascii.eqb_refl. simpl. apply IH. reflexivity.
Qed.

End Characters.

Section DigitStrings.

Lemma digitsValue_fold (s : jsstring) (a : Z) :
  fold_left (fun acc c => acc * 10 + digitValue c) s a
  = a * 10 ^ Z.of_nat (length s) + digitsValue s.
Proof.
  unfold digitsValue. revert a.
  induction s as [|c s IH]; intros a.
  - simpl. lia.
  - cbn [fold_left length]. rewrite IH, (IH (0 * 10 + digitValue c)).
    rewrite Nat2Z.inj_succ, Z.pow_succ_r by lia. ring.
Qed.

Lemma digitsValue_app (a b : jsstring) :
  digitsValue (a ++ b) = digitsValue a * 10 ^ Z.of_nat (length b) + digitsValue b.
Proof.
  unfold digitsValue at 1. rewrite fold_left_app.
  fold (digitsValue a). apply digitsValue_fold.
Qed.

Lemma digitsValue_cons (c : ascii) (s : jsstring) :
  digitsValue (c :: s) = digitValue c * 10 ^ Z.of_nat (length s) + digitsValue s.
Proof.
  change (c :: s) with ([c] ++ s). rewrite digitsValue_app. reflexivity.
Qed.

Lemma digitsValue_range (s : jsstring) :
  forallb isDigit s = true -> 0 <= digitsValue s < 10 ^ Z.of_nat (length s).
Proof.
  induction s as [|c s IH]; intros H.
  - cbn. lia.
  - cbn [forallb] in H. apply andb_true_iff in H. destruct H as [Hc Hs].
    specialize (IH Hs). pose proof (digitValue_range c Hc) as Hd.
    rewrite digitsValue_cons. cbn [length].
    rewrite Nat2Z.inj_succ, Z.pow_succ_r by lia. nia.
Qed.

Lemma digitsValue_zeros (k : nat) : digitsValue (zeros k) = 0.
Proof.
  induction k as [|k IH].
  - reflexivity.
  - unfold zeros in *. cbn [repeat]. rewrite digitsValue_cons, IH.
    reflexivity.
Qed.

Lemma length_zeros (k : nat) : length (zeros k) = k.
Proof. apply repeat_length. Qed.

Lemma forallb_zeros (k : nat) : forallb isDigit (zeros k) = true.
Proof.
  induction k as [|k IH]; [reflexivity|]. unfold zeros in *. cbn [repeat forallb].
  rewrite IH. reflexivity.
Qed.

Lemma matchesDigits_forallb (s : jsstring) :
  matchesDigits s = true <-> s <> [] /\ forallb isDigit s = true.
Proof.
  destruct s as [|c s]; simpl.
  - split; [discriminate | intros [H _]; contradiction].
  - split; [intros H; split; [discriminate | exact H] | intros [_ H]; exact H].
Qed.

End DigitStrings.

(** ** Printing and reading bigints *)

Section BigIntStrings.

Lemma canonicalDigits_forallb (s : jsstring) :
  canonicalDigits s = true -> forallb isDigit s = true.
Proof.
  destruct s as [|c [|d r]]; cbn; intros H.
  - discriminate.
  - rewrite H. reflexivity.
  - apply andb_true_iff in H. destruct H as [H Hr].
    apply andb_true_iff in H. destruct H as [Hc _].
    rewrite Hc. exact Hr.
Qed.

Lemma digitFuel_enough (n : Z) : 0 <= n -> n < 2 ^ Z.of_nat (digitFuel n).
Proof.
  intros H. unfold digitFuel.
  rewrite Nat2Z.inj_succ, Z2Nat.id by apply Z.log2_nonneg.
  destruct (Z.eq_dec n 0) as [->|Hn].
  - cbn. lia.
  - apply Z.log2_spec. lia.
Qed.

(** Digits that start with a non-zero digit are printed back as they are. *)
Lemma natDigits_leading (r : jsstring) :
  forall (c : ascii) (f : nat),
    isDigit c = true -> Ascii.eqb c "0"%char = false ->
    forallb isDigit r = true ->
    digitsValue (c :: r) < 2 ^ Z.of_nat f ->
    natDigits f (digitsValue (c :: r)) = c :: r.
Proof.
  induction r as [|x r IH] using rev_ind; intros c f Hc Hz Hr Hf.
  - pose proof (digitValue_range c Hc) as Hd.
    pose proof (zero_char_value c Hc Hz) as Hc1.
    rewrite digitsValue_cons in *. cbn [length digitsValue fold_left] in *.
    change (digitsValue []) with 0 in *.
    replace (digitValue c * 10 ^ Z.of_nat 0 + 0) with (digitValue c) in * by (cbn; lia).
    destruct f as [|f].
    + change (Z.of_nat 0) with 0 in Hf. rewrite Z.pow_0_r in Hf. lia.
    + cbn [natDigits].
      replace (digitValue c <? 10) with true by (symmetry; apply Z.ltb_lt; lia).
      rewrite digitChar_digitValue by assumption. reflexivity.
  - rewrite forallb_app in Hr. apply andb_true_iff in Hr.
    destruct Hr as [Hr Hx]. cbn [forallb] in Hx. rewrite andb_true_r in Hx.
    pose proof (digitValue_range x Hx) as Hdx.
    pose proof (zero_char_value c Hc Hz) as Hc1.
    assert (Hv : digitsValue (c :: r ++ [x]) = digitsValue (c :: r) * 10 + digitValue x).
    { change (c :: r ++ [x]) with ((c :: r) ++ [x]). rewrite digitsValue_app.
      cbn [length]. change (digitsValue [x]) with (0 * 10 + digitValue x).
      change (10 ^ Z.of_nat 1) with 10. lia. }
    assert (Hpos : 1 <= digitsValue (c :: r)).
    { rewrite digitsValue_cons.
      pose proof (digitsValue_range r Hr) as Hrr.
      assert (0 < 10 ^ Z.of_nat (length r)) by (apply Z.pow_pos_nonneg; lia).
      nia. }
    rewrite Hv in *.
    destruct f as [|f].
    + change (Z.of_nat 0) with 0 in Hf. rewrite Z.pow_0_r in Hf. lia.
    + cbn [natDigits].
      replace (digitsValue (c :: r) * 10 + digitValue x <? 10) with false
        by (symmetry; apply Z.ltb_ge; lia).
      replace ((digitsValue (c :: r) * 10 + digitValue x) / 10) with (digitsValue (c :: r))
        by (apply Z.div_unique with (r := digitValue x); lia).
      replace ((digitsValue (c :: r) * 10 + digitValue x) mod 10) with (digitValue x)
        by (apply Z.mod_unique with (q := digitsValue (c :: r)); lia).
      rewrite digitChar_digitValue by assumption.
      rewrite IH; try assumption.
      * reflexivity.
      * rewrite Nat2Z.inj_succ, Z.pow_succ_r in Hf by lia. lia.
Qed.

Lemma bigintToString_canonical (s : jsstring) :
  canonicalDigits s = true -> bigintToString (digitsValue s) = s.
Proof.
  intros H. pose proof (canonicalDigits_forallb s H) as Hall.
  pose proof (digitsValue_range s Hall) as Hrange.
  unfold bigintToString.
  replace (digitsValue s <? 0) with false by (symmetry; apply Z.ltb_ge; lia).
  destruct s as [|c [|d r]].
  - discriminate.
  - cbn in H. pose proof (digitValue_range c H) as Hd.
    change (digitsValue [c]) with (0 * 10 + digitValue c).
    unfold digitFuel. cbn [natDigits].
    replace (0 * 10 + digitValue c <? 10) with true by (symmetry; apply Z.ltb_lt; lia).
    replace (0 * 10 + digitValue c) with (digitValue c) by lia.
    rewrite digitChar_digitValue by assumption. reflexivity.
  - cbn [canonicalDigits] in H.
    apply andb_true_iff in H. destruct H as [H Hr].
    apply andb_true_iff in H. destruct H as [Hc Hz].
    apply negb_true_iff in Hz.
    apply natDigits_leading; try assumption.
    apply digitFuel_enough. lia.
Qed.

(** What [toString] prints is a canonical digit string of the same value. *)
Lemma natDigits_sound (f : nat) :
  forall n, 0 <= n < 2 ^ Z.of_nat f -> (0 < f)%nat ->
    canonicalDigits (natDigits f n) = true /\ digitsValue (natDigits f n) = n.
Proof.
  induction f as [|f IH]; intros n Hn Hf; [lia|].
  cbn [natDigits].
  destruct (n <? 10) eqn:E.
  - apply Z.ltb_lt in E. cbn [canonicalDigits].
    rewrite isDigit_digitChar by lia. split; [reflexivity|].
    change (digitsValue [digitChar n]) with (0 * 10 + digitValue (digitChar n)).
    rewrite digitValue_digitChar; lia.
  - apply Z.ltb_ge in E.
    assert (Hq : 0 <= n / 10 < 2 ^ Z.of_nat f).
    { rewrite Nat2Z.inj_succ, Z.pow_succ_r in Hn by lia.
      split; [apply Z.div_pos; lia|].
      apply Z.div_lt_upper_bound; lia. }
    assert (Hf' : (0 < f)%nat).
    { destruct f; [|lia]. cbn in Hq.
      assert (1 <= n / 10) by (apply Z.div_le_lower_bound; lia). lia. }
    destruct (IH (n / 10) Hq Hf') as [Hcan Hval].
    pose proof (Z.mod_pos_bound n 10 ltac:(lia)) as Hm.
    split.
    + assert (Hq1 : 1 <= n / 10) by (apply Z.div_le_lower_bound; lia).
      remember (natDigits f (n / 10)) as t eqn:Ht.
      destruct t as [|c [|d r]].
      * discriminate.
      * cbn in Hcan. cbn [app canonicalDigits forallb].
        rewrite Hcan, isDigit_digitChar by lia. cbn.
        rewrite andb_true_r. apply negb_true_iff.
        destruct (Ascii.eqb c "0"%char) eqn:Ec; [|reflexivity].
        apply Ascii.eqb_eq in Ec. subst c. cbn in Hval. lia.
      * cbn [canonicalDigits] in Hcan.
        apply andb_true_iff in Hcan. destruct Hcan as [Hcan Hr].
        cbn [app canonicalDigits]. rewrite Hcan.
        change (d :: r ++ [digitChar (n mod 10)]) with ((d :: r) ++ [digitChar (n mod 10)]).
        rewrite forallb_app, Hr. cbn. rewrite isDigit_digitChar by lia. reflexivity.
    + rewrite digitsValue_app, Hval. cbn [length].
      change (digitsValue [digitChar (n mod 10)]) with (0 * 10 + digitValue (digitChar (n mod 10))).
      rewrite digitValue_digitChar by lia.
      change (10 ^ Z.of_nat 1) with 10.
      pose proof (Z.div_mod n 10 ltac:(lia)). lia.
Qed.

Lemma bigintToString_sound (n : Z) :
  0 <= n ->
  canonicalDigits (bigintToString n) = true /\ digitsValue (bigintToString n) = n.
Proof.
  intros H. unfold bigintToString.
  replace (n <? 0) with false by (symmetry; apply Z.ltb_ge; lia).
  apply natDigits_sound.
  - split; [lia | apply digitFuel_enough; lia].
  - unfold digitFuel. lia.
Qed.

Lemma trimStart_digit (c : ascii) (s : jsstring) :
  isDigit c = true -> trimStart (c :: s) = c :: s.
Proof.
  intros H. cbn. rewrite isDigit_not_space by assumption. reflexivity.
Qed.

Lemma trim_digits (s : jsstring) : forallb isDigit s = true -> trim s = s.
Proof.
  intros H. unfold trim.
  assert (Hstart : forall t, forallb isDigit t = true -> trimStart t = t).
  { intros [|c t] Ht; [reflexivity|].
    cbn [forallb] in Ht. apply andb_true_iff in Ht.
    apply trimStart_digit. tauto. }
  rewrite (Hstart s H), Hstart.
  - apply rev_involutive.
  - rewrite forallb_forall in *. intros x Hx. apply H. apply in_rev. exact Hx.
Qed.

Lemma nonDecimalLiteral_digits (s : jsstring) :
  forallb isDigit s = true -> nonDecimalLiteral s = None.
Proof.
  intros H. destruct s as [|z [|p d]]; try reflexivity.
  cbn [forallb] in H.
  apply andb_true_iff in H. destruct H as [_ H].
  apply andb_true_iff in H. destruct H as [Hp _].
  cbn [nonDecimalLiteral].
  destruct (Ascii.eqb z "0"%char); [|reflexivity].
  rewrite !(isDigit_eqb_false p) by (assumption || reflexivity).
  reflexivity.
Qed.

(** [BigInt] reads a string of digits as its decimal value, and the empty
    string as zero. *)
Lemma BigIntOfString_digits (s : jsstring) :
  forallb isDigit s = true -> BigIntOfString s = Ok (digitsValue s).
Proof.
  intros H. unfold BigIntOfString. rewrite trim_digits by assumption.
  destruct s as [|c r]; [reflexivity|].
  pose proof H as H'. cbn [forallb] in H'.
  apply andb_true_iff in H'. destruct H' as [Hc Hr].
  rewrite !(isDigit_eqb_false c) by (assumption || reflexivity).
  rewrite nonDecimalLiteral_digits by assumption.
  unfold decimalLiteral.
  change (matchesDigits (c :: r)) with (forallb isDigit (c :: r)).
  rewrite H. reflexivity.
Qed.

(** [BigInt] throws nothing but a SyntaxError. *)
Lemma BigIntOfString_error (s : jsstring) (e : JSError) :
  BigIntOfString s = Throw e -> e = SyntaxError.
Proof.
  assert (Hdec : forall t e', decimalLiteral t = Throw e' -> e' = SyntaxError).
  { intros t e'. unfold decimalLiteral. destruct (matchesDigits t); congruence. }
  assert (Hrad : forall ok radix t e', radixLiteral ok radix t = Throw e' -> e' = SyntaxError).
  { intros ok radix t e'. unfold radixLiteral.
    destruct t; [congruence|]. destruct (forallb ok (a :: t)); congruence. }
  unfold BigIntOfString.
  destruct (trim s) as [|c r]; [discriminate|].
  destruct (Ascii.eqb c "+"%char); [apply Hdec|].
  destruct (Ascii.eqb c "-"%char).
  { destruct (decimalLiteral r) eqn:E; cbn; [discriminate|].
    intros H. injection H as <-. eapply Hdec. exact E. }
  unfold nonDecimalLiteral.
  destruct r as [|p d]; [apply Hdec|].
  destruct (Ascii.eqb c "0"%char); [|apply Hdec].
  destruct (Ascii.eqb p "x"%char || Ascii.eqb p "X"%char); [apply Hrad|].
  destruct (Ascii.eqb p "o"%char || Ascii.eqb p "O"%char); [apply Hrad|].
  destruct (Ascii.eqb p "b"%char || Ascii.eqb p "B"%char); [apply Hrad|].
  apply Hdec.
Qed.

End BigIntStrings.

(** ** Splitting, padding and stripping *)

Section Padding.

Lemma split_digits (s : jsstring) :
  forallb isDigit s = true -> split "."%char s = [s].
Proof.
  induction s as [|c s IH]; intros H; [reflexivity|].
  cbn [forallb] in H. apply andb_true_iff in H. destruct H as [Hc Hs].
  cbn [split]. rewrite (isDigit_eqb_false c) by (assumption || reflexivity).
  rewrite IH by assumption. reflexivity.
Qed.

Lemma split_point (w rest : jsstring) :
  forallb isDigit w = true ->
  split "."%char (w ++ "."%char :: rest) = w :: split "."%char rest.
Proof.
  induction w as [|c w IH]; intros H; [reflexivity|].
  cbn [forallb] in H. apply andb_true_iff in H. destruct H as [Hc Hs].
  cbn [split app]. rewrite (isDigit_eqb_false c) by (assumption || reflexivity).
  rewrite IH by assumption. reflexivity.
Qed.

Lemma split_nonempty (sep : ascii) (s : jsstring) : split sep s <> [].
Proof.
  destruct s as [|c s]; cbn; [discriminate|].
  destruct (Ascii.eqb c sep); [discriminate|].
  destruct (split sep s); discriminate.
Qed.

Lemma dropLeadingZeros_zeros (k : nat) (s : jsstring) :
  dropLeadingZeros (zeros k ++ s) = dropLeadingZeros s.
Proof.
  induction k as [|k IH]; [reflexivity|]. exact IH.
Qed.

Lemma rev_zeros (k : nat) : rev (zeros k) = zeros k.
Proof.
  unfold zeros. induction k as [|k IH]; [reflexivity|].
  cbn [repeat rev]. rewrite IH. symmetry. apply repeat_cons.
Qed.

(** Stripping the zeros appended to text that does not end in a zero gives
    the text back. *)
Lemma stripTrailingZeros_padded (s : jsstring) (x : ascii) (k : nat) :
  Ascii.eqb x "0"%char = false ->
  stripTrailingZeros ((s ++ [x]) ++ zeros k) = s ++ [x].
Proof.
  intros Hx. unfold stripTrailingZeros.
  rewrite rev_app_distr, rev_zeros, dropLeadingZeros_zeros.
  rewrite rev_app_distr. cbn [rev app dropLeadingZeros]. rewrite Hx.
  change (x :: rev s) with ([x] ++ rev s).
  rewrite rev_app_distr, rev_involutive. reflexivity.
Qed.

(** Digits are their leading zeros followed by the rest. *)
Lemma dropLeadingZeros_split (t : jsstring) :
  t = zeros (length t - length (dropLeadingZeros t)) ++ dropLeadingZeros t
  /\ (length (dropLeadingZeros t) <= length t)%nat
  /\ digitsValue (dropLeadingZeros t) = digitsValue t.
Proof.
  induction t as [|c t IH]; [repeat split; reflexivity|].
  cbn [dropLeadingZeros].
  destruct (Ascii.eqb c "0"%char) eqn:E.
  - apply Ascii.eqb_eq in E. subst c.
    destruct IH as (IH1 & IH2 & IH3).
    repeat split.
    + cbn [length].
      replace (S (length t) - length (dropLeadingZeros t))%nat
        with (S (length t - length (dropLeadingZeros t))) by lia.
      unfold zeros in *. cbn [repeat app]. f_equal. exact IH1.
    + cbn [length]. lia.
    + rewrite digitsValue_cons, IH3. reflexivity.
  - repeat split.
    + rewrite Nat.sub_diag. reflexivity.
    + lia.
Qed.

Lemma dropLeadingZeros_canonical (t : jsstring) :
  forallb isDigit t = true -> 0 < digitsValue t ->
  canonicalDigits (dropLeadingZeros t) = true.
Proof.
  induction t as [|c t IH]; intros H Hv.
  - cbn in Hv. lia.
  - cbn [forallb] in H. apply andb_true_iff in H. destruct H as [Hc Ht].
    cbn [dropLeadingZeros].
    destruct (Ascii.eqb c "0"%char) eqn:E.
    + apply IH; [assumption|].
      apply Ascii.eqb_eq in E. subst c. rewrite digitsValue_cons in Hv.
      exact Hv.
    + destruct t as [|d r]; cbn [canonicalDigits]; [assumption|].
      rewrite Hc, E. exact Ht.
Qed.

(** Printing the value of a string of digits and padding it at the start to
    the length of the string gives the string back. *)
Lemma padStart0_toString (t : jsstring) :
  forallb isDigit t = true -> 0 < digitsValue t ->
  padStart0 (bigintToString (digitsValue t)) (length t) = t.
Proof.
  intros H Hv.
  destruct (dropLeadingZeros_split t) as (Hsplit & Hlen & Hval).
  rewrite <- Hval.
  rewrite bigintToString_canonical by (apply dropLeadingZeros_canonical; assumption).
  unfold padStart0. symmetry. exact Hsplit.
Qed.

End Padding.

(** ** Text that [BigInt] rejects *)

Section Rejected.

(** [trimStart] removes a prefix of white space. *)
Lemma trimStart_suffix (s : jsstring) :
  exists ws, s = ws ++ trimStart s /\ forallb isWhiteSpace ws = true.
Proof.
  induction s as [|c s (ws & Hs & Hws)].
  - exists []. split; reflexivity.
  - cbn [trimStart]. destruct (isWhiteSpace c) eqn:E.
    + exists (c :: ws). split.
      * cbn [app]. f_equal. exact Hs.
      * cbn [forallb]. rewrite E. exact Hws.
    + exists []. split; reflexivity.
Qed.

Lemma trimStart_keeps (s : jsstring) (x : ascii) :
  In x s -> isWhiteSpace x = false -> In x (trimStart s).
Proof.
  intros Hin Hx. destruct (trimStart_suffix s) as (ws & Hs & Hws).
  rewrite Hs in Hin. apply in_app_or in Hin. destruct Hin as [Hin|Hin]; [|exact Hin].
  rewrite forallb_forall in Hws. specialize (Hws x Hin). congruence.
Qed.

(** Trimming a text that begins with a digit keeps its first character and,
    after it, every character that is neither a digit nor white space. *)
Lemma trim_keeps (c x : ascii) (r : jsstring) :
  isDigit c = true -> In x r -> isDigit x = false -> isWhiteSpace x = false ->
  exists r', trim (c :: r) = c :: r' /\ In x r'.
Proof.
  intros Hc Hin Hd Hx. unfold trim. rewrite trimStart_digit by assumption.
  destruct (trimStart_suffix (rev (c :: r))) as (ws & Hs & Hws).
  assert (Hkeep : In x (trimStart (rev (c :: r)))).
  { apply trimStart_keeps; [|assumption]. apply -> in_rev. right. exact Hin. }
  cbn [rev] in *.
  assert (Hne : trimStart (rev r ++ [c]) <> [])
    by (intros E; rewrite E in Hkeep; contradiction).
  destruct (exists_last Hne) as (t & y & Ht).
  rewrite Ht in *.
  assert (Hy : y = c).
  { rewrite app_assoc in Hs. apply app_inj_tail in Hs. symmetry. tauto. }
  subst y. rewrite rev_app_distr. cbn [rev app].
  exists (rev t). split; [reflexivity|].
  apply -> in_rev. apply in_app_or in Hkeep. destruct Hkeep as [Hk|[Hk|[]]]; [exact Hk|].
  subst x. congruence.
Qed.

(** [BigInt] rejects a text that begins with a digit from 1 to 9 and holds a
    character that is neither a digit nor white space. *)
Lemma BigIntOfString_rejects (s : jsstring) (c x : ascii) (r : jsstring) :
  s = c :: r -> isDigit c = true -> Ascii.eqb c "0"%char = false ->
  In x r -> isDigit x = false -> isWhiteSpace x = false ->
  BigIntOfString s = Throw SyntaxError.
Proof.
  intros -> Hc Hz Hin Hd Hw.
  destruct (trim_keeps c x r Hc Hin Hd Hw) as (r' & Htrim & Hin').
  unfold BigIntOfString. rewrite Htrim.
  rewrite !(isDigit_eqb_false c) by (assumption || reflexivity).
  assert (Hnon : nonDecimalLiteral (c :: r') = None).
  { unfold nonDecimalLiteral. destruct r'; [reflexivity|]. rewrite Hz. reflexivity. }
  rewrite Hnon. unfold decimalLiteral.
  replace (matchesDigits (c :: r')) with false; [reflexivity|].
  symmetry. change (matchesDigits (c :: r')) with (forallb isDigit (c :: r')).
  destruct (forallb isDigit (c :: r')) eqn:E; [|reflexivity].
  rewrite forallb_forall in E. specialize (E x (or_intror Hin')). congruence.
Qed.

End Rejected.

(** ** The token-amount codec *)

Section Codec.

Lemma wholePart_integerPart (amount : jsstring) :
  nth 0 (split "."%char amount) (lit "0") = integerPart amount.
Proof.
  unfold integerPart. pose proof (split_nonempty "."%char amount) as H.
  destruct (split "."%char amount); [contradiction | reflexivity].
Qed.

Lemma fractionalPart_default (amount : jsstring) :
  nth 1 (split "."%char amount) [] = fractionOrEmpty amount.
Proof.
  unfold fractionOrEmpty, fractionalPart.
  destruct (split "."%char amount) as [|w [|f r]]; reflexivity.
Qed.

Lemma forallb_firstn (p : ascii -> bool) (n : nat) (s : jsstring) :
  forallb p s = true -> forallb p (firstn n s) = true.
Proof.
  revert n. induction s as [|c s IH]; intros [|n] H; try reflexivity.
  cbn [forallb firstn] in *. apply andb_true_iff in H. destruct H as [Hc Hs].
  rewrite Hc, IH by assumption. reflexivity.
Qed.

Lemma paddedFractional_digits (f : jsstring) (d : nat) :
  forallb isDigit f = true ->
  forallb isDigit (slice0 (padEnd0 f d) d) = true.
Proof.
  intros H. unfold slice0, padEnd0. apply forallb_firstn.
  rewrite forallb_app, H, forallb_zeros. reflexivity.
Qed.

Lemma pow10_split (a b : nat) :
  10 ^ Z.of_nat (a + b) = 10 ^ Z.of_nat a * 10 ^ Z.of_nat b.
Proof.
  rewrite Nat2Z.inj_add, Z.pow_add_r by lia. reflexivity.
Qed.

Lemma pow10_pos (a : nat) : 0 < 10 ^ Z.of_nat a.
Proof. apply Z.pow_pos_nonneg; lia. Qed.

(** Padding with zeros multiplies by a power of ten; cutting divides and
    drops the remainder. *)
Lemma paddedFractional_value (f : jsstring) (d : nat) :
  forallb isDigit f = true ->
  digitsValue (slice0 (padEnd0 f d) d)
  = digitsValue f * 10 ^ Z.of_nat d / 10 ^ Z.of_nat (length f).
Proof.
  intros H. unfold slice0, padEnd0.
  destruct (Nat.le_gt_cases (length f) d) as [Hle|Hgt].
  - rewrite firstn_all2 by (rewrite length_app, length_zeros; lia).
    rewrite digitsValue_app, digitsValue_zeros, length_zeros.
    replace d with ((d - length f) + length f)%nat at 2 by lia.
    rewrite pow10_split, Z.mul_assoc, Z.div_mul by (pose proof (pow10_pos (length f)); lia).
    lia.
  - replace (d - length f)%nat with 0%nat by lia.
    unfold zeros. cbn [repeat]. rewrite app_nil_r.
    rewrite <- (firstn_skipn d f) at 2 3.
    rewrite digitsValue_app, length_app.
    assert (Hs : forallb isDigit (skipn d f) = true).
    { rewrite forallb_forall in *. intros x Hx. apply H.
      rewrite <- (firstn_skipn d f). apply in_or_app. right. exact Hx. }
    pose proof (digitsValue_range _ Hs) as Hr.
    assert (Hl : length (firstn d f) = d) by (apply firstn_length_le; lia).
    rewrite Hl, pow10_split.
    pose proof (pow10_pos d). pose proof (pow10_pos (length (skipn d f))).
    set (A := digitsValue (firstn d f)) in *.
    set (B := digitsValue (skipn d f)) in *.
    set (P := 10 ^ Z.of_nat d) in *.
    set (Q := 10 ^ Z.of_nat (length (skipn d f))) in *.
    rewrite (Z.mul_comm P Q), Z.div_mul_cancel_r by lia.
    apply Z.div_unique with (r := B); lia.
Qed.

Lemma validAmount_parts (amount : jsstring) :
  validAmount amount = true ->
  forallb isDigit (integerPart amount) = true
  /\ integerPart amount <> []
  /\ forallb isDigit (fractionOrEmpty amount) = true.
Proof.
  unfold validAmount, fractionOrEmpty. intros H.
  apply andb_true_iff in H. destruct H as [Hw Hf].
  apply matchesDigits_forallb in Hw. destruct Hw as [Hne Hw].
  repeat split; try assumption.
  destruct (fractionalPart amount); [|reflexivity].
  apply matchesDigits_forallb in Hf. tauto.
Qed.

Lemma parseTokenAmount_digits (amount : jsstring) (d : nat) :
  forallb isDigit (integerPart amount) = true ->
  forallb isDigit (fractionOrEmpty amount) = true ->
  parseTokenAmount amount d
  = Ok (digitsValue (integerPart amount) * 10 ^ Z.of_nat d
        + digitsValue (slice0 (padEnd0 (fractionOrEmpty amount) d) d)).
Proof.
  intros Hw Hf. unfold parseTokenAmount.
  rewrite wholePart_integerPart, fractionalPart_default.
  rewrite (BigIntOfString_digits _ Hw). cbn [bind].
  rewrite (BigIntOfString_digits _ (paddedFractional_digits _ d Hf)).
  reflexivity.
Qed.

(** [10 ** d] is exact as long as the power of ten is a double. *)
Lemma divisor_exact (d : nat) :
  (d <= 22)%nat -> BigIntOfNumber (pow10 d) = Ok (10 ^ Z.of_nat d).
Proof.
  intros H.
  do 23 (destruct d as [|d]; [vm_compute; reflexivity|]).
  lia.
Qed.

Lemma formatTokenAmount_exact (n : Z) (d : nat) :
  0 <= n -> (d <= 22)%nat ->
  formatTokenAmount (AmountBigInt n) d
  = Ok (if n mod 10 ^ Z.of_nat d =? 0 then bigintToString (n / 10 ^ Z.of_nat d)
        else bigintToString (n / 10 ^ Z.of_nat d)
             ++ "."%char :: stripTrailingZeros
                              (padStart0 (bigintToString (n mod 10 ^ Z.of_nat d)) d)).
Proof.
  intros Hn Hd. unfold formatTokenAmount. cbn [bind].
  rewrite divisor_exact by assumption. cbn [bind].
  pose proof (pow10_pos d) as Hp.
  unfold bigintDiv, bigintRem.
  replace (10 ^ Z.of_nat d =? 0) with false by (symmetry; apply Z.eqb_neq; lia).
  cbn [bind].
  rewrite Z.quot_div_nonneg, Z.rem_mod_nonneg by lia.
  destruct (n mod 10 ^ Z.of_nat d =? 0); reflexivity.
Qed.

Example formatTokenAmount_tenth :
  formatTokenAmount (AmountBigInt 100000) 6 = Ok (lit "0.1")
  /\ parseTokenAmount (lit "0.1") 6 = Ok 100000.
Proof. split; vm_compute; reflexivity. Qed.

Lemma split_one (s w : jsstring) : split "."%char s = [w] -> s = w.
Proof.
  revert w. induction s as [|c s IH]; intros w H.
  - cbn in H. congruence.
  - cbn [split] in H. destruct (Ascii.eqb c "."%char).
    + pose proof (split_nonempty "."%char s) as Hne.
      destruct (split "."%char s); [contradiction | discriminate H].
    + pose proof (split_nonempty "."%char s) as Hne.
      destruct (split "."%char s) as [|h t] eqn:E; [contradiction|].
      injection H as <- ->. f_equal. apply IH. reflexivity.
Qed.

Lemma split_two (s w f : jsstring) :
  split "."%char s = [w; f] -> s = w ++ "."%char :: f.
Proof.
  revert w. induction s as [|c s IH]; intros w H.
  - cbn in H. congruence.
  - cbn [split] in H. destruct (Ascii.eqb c "."%char) eqn:Ec.
    + apply Ascii.eqb_eq in Ec. subst c.
      injection H as <- H. apply split_one in H. subst. reflexivity.
    + pose proof (split_nonempty "."%char s) as Hne.
      destruct (split "."%char s) as [|h t] eqn:E; [contradiction|].
      injection H as <- ->. cbn [app]. f_equal. apply IH. reflexivity.
Qed.

(** The two shapes of a display amount. *)
Lemma isDisplayAmount_shape (x : jsstring) :
  isDisplayAmount x = true ->
  (x = integerPart x /\ fractionalPart x = None /\ matchesDigits x = true)
  \/ (exists f, fractionalPart x = Some f /\ matchesDigits f = true
                /\ matchesDigits (integerPart x) = true
                /\ x = integerPart x ++ "."%char :: f).
Proof.
  unfold isDisplayAmount, integerPart, fractionalPart.
  destruct (split "."%char x) as [|w [|f [|g r]]] eqn:E; intros H; try discriminate.
  - left. apply split_one in E. subst. cbn. tauto.
  - right. exists f. apply andb_true_iff in H. destruct H as [Hw Hf].
    apply split_two in E. cbn. tauto.
Qed.

Lemma endsInZero_last (f : jsstring) :
  f <> [] -> endsInZero f = false ->
  exists f0 x, f = f0 ++ [x] /\ Ascii.eqb x "0"%char = false.
Proof.
  intros Hne H. destruct (exists_last Hne) as (f0 & x & ->).
  exists f0, x. split; [reflexivity|].
  unfold endsInZero in H. rewrite rev_app_distr in H. exact H.
Qed.

End Codec.

(** ** Claims about the codec *)

(** C5. For every valid display string (the integer part, and the fractional
    part when there is one, are non-empty runs of digits) [parseTokenAmount]
    splits on the decimal point, pads the fractional part with zeros at the
    end to [decimals] digits and cuts it to [decimals] digits, then returns
    integer part times ten to the [decimals] plus the padded fraction.  The
    cut drops digits (a floor division), it neither rounds nor throws:
    "123" at 18 decimals is 123 * 10^18, and "12.3456789" at 6 decimals is
    12345678. *)
Theorem parseTokenAmount_valid (amount : jsstring) (decimals : nat) :
  validAmount amount = true ->
  let fraction := fractionOrEmpty amount in
  let padded := firstn decimals (fraction ++ zeros (decimals - length fraction)) in
  parseTokenAmount amount decimals
    = Ok (digitsValue (integerPart amount) * 10 ^ Z.of_nat decimals + digitsValue padded)
  /\ digitsValue padded
     = digitsValue fraction * 10 ^ Z.of_nat decimals / 10 ^ Z.of_nat (length fraction)
  /\ parseTokenAmount (lit "123") 18 = Ok (123 * 10 ^ 18)
  /\ parseTokenAmount (lit "12.3456789") 6 = Ok 12345678.
Proof.
  intros H fraction padded.
  destruct (validAmount_parts amount H) as (Hw & _ & Hf).
  split; [|split; [|split]].
  - apply parseTokenAmount_digits; assumption.
  - apply (paddedFractional_value fraction decimals Hf).
  - vm_compute. reflexivity.
  - vm_compute. reflexivity.
Qed.

Lemma parseTokenAmount_valid_witness :
  validAmount (lit "12.3456789") = true
  /\ parseTokenAmount (lit "12.3456789") 6
     = Ok (digitsValue (lit "12") * 10 ^ 6 + digitsValue (lit "345678")).
Proof.
  split; [reflexivity|].
  exact (proj1 (parseTokenAmount_valid (lit "12.3456789") 6 eq_refl)).
Defined.

(** C6, at the input where the code leaves the claim.  The divisor is the
    number [10 ** decimals] turned into a bigint.  No double equals 10^24;
    the nearest one is 999999999999999983222784, so at 24 decimals the base
    amount 10^24, whose remainder by 10^24 is zero, is printed with a
    fractional part.  At 6 decimals 100000 is printed as "0.1". *)
Theorem formatTokenAmount_inexact_divisor :
  BigIntOfNumber (pow10 24) = Ok 999999999999999983222784
  /\ Z.rem (10 ^ 24) (10 ^ 24) = 0
  /\ formatTokenAmount (AmountBigInt (10 ^ 24)) 24 = Ok (lit "1.000000000000000016777216")
  /\ formatTokenAmount (AmountBigInt 100000) 6 = Ok (lit "0.1").
Proof.
  repeat split; vm_compute; reflexivity.
Qed.

(** C4, as stated, fails on an amount without integer part: the empty
    integer part does not match the digit pattern and is read as zero. *)
Lemma parseTokenAmount_empty_integer :
  matchesDigits (integerPart (lit ".5")) = false
  /\ parseTokenAmount (lit ".5") 6 = Ok 500000.
Proof.
  split; vm_compute; reflexivity.
Qed.

(** C4, amended.  The digit pattern is checked by [isValidTokenAmount], which
    answers false whenever the integer part, or a fractional part that is
    present, does not match it.  [parseTokenAmount] throws exactly when
    [BigInt] rejects the integer part or the fractional part after padding
    and cutting, always with a SyntaxError.  It does so whenever the integer
    part begins with a digit from 1 to 9 and holds a character that is
    neither a digit nor white space, as in "1a.2". *)
Theorem invalid_amount_rejected (amount : jsstring) (decimals : nat) :
  (matchesDigits (integerPart amount) = false
   \/ (exists f, fractionalPart amount = Some f /\ matchesDigits f = false) ->
   isValidTokenAmount amount decimals = false)
  /\ (parseTokenAmount amount decimals = Throw SyntaxError <->
      BigIntOfString (integerPart amount) = Throw SyntaxError
      \/ BigIntOfString (slice0 (padEnd0 (fractionOrEmpty amount) decimals) decimals)
         = Throw SyntaxError)
  /\ parseTokenAmount amount decimals <> Throw RangeError
  /\ (forall c r x,
        integerPart amount = c :: r ->
        isDigit c = true -> Ascii.eqb c "0"%char = false ->
        In x r -> isDigit x = false -> isWhiteSpace x = false ->
        parseTokenAmount amount decimals = Throw SyntaxError)
  /\ parseTokenAmount (lit "1a.2") 6 = Throw SyntaxError.
Proof.
  assert (Hparse :
    parseTokenAmount amount decimals
    = bind (BigIntOfString (integerPart amount)) (fun whole =>
      bind (BigIntOfString (slice0 (padEnd0 (fractionOrEmpty amount) decimals) decimals))
           (fun fractionalBigInt => Ok (whole * 10 ^ Z.of_nat decimals + fractionalBigInt)))).
  { unfold parseTokenAmount.
    rewrite wholePart_integerPart, fractionalPart_default. reflexivity. }
  split; [|split; [|split; [|split]]].
  - unfold isValidTokenAmount, integerPart, fractionalPart.
    pose proof (split_nonempty "."%char amount) as Hne.
    destruct (split "."%char amount) as [|w rest]; [contradiction|].
    cbn [nth nth_error]. intros [Hw|(f & Hf & Hm)].
    + rewrite Hw. reflexivity.
    + destruct (matchesDigits w); [|reflexivity]. cbn [negb].
      destruct rest as [|f' rest]; [discriminate Hf|].
      cbn in Hf. injection Hf as ->. rewrite Hm. reflexivity.
  - rewrite Hparse.
    destruct (BigIntOfString (integerPart amount)) as [w|e] eqn:Ew; cbn [bind].
    + destruct (BigIntOfString (slice0 (padEnd0 (fractionOrEmpty amount) decimals) decimals))
        as [v|e] eqn:Ef; cbn [bind].
      * split; [discriminate | intros [H|H]; discriminate H].
      * apply BigIntOfString_error in Ef. subst e. tauto.
    + apply BigIntOfString_error in Ew. subst e. tauto.
  - rewrite Hparse.
    destruct (BigIntOfString (integerPart amount)) as [w|e] eqn:Ew; cbn [bind].
    + destruct (BigIntOfString (slice0 (padEnd0 (fractionOrEmpty amount) decimals) decimals))
        as [v|e] eqn:Ef; cbn [bind]; [discriminate|].
      apply BigIntOfString_error in Ef. subst e. discriminate.
    + apply BigIntOfString_error in Ew. subst e. discriminate.
  - intros c r x Hint Hc Hz Hin Hd Hw.
    rewrite Hparse, (BigIntOfString_rejects _ c x r Hint Hc Hz Hin Hd Hw).
    reflexivity.
  - vm_compute. reflexivity.
Qed.

Lemma invalid_amount_rejected_witness :
  matchesDigits (integerPart (lit "1a.2")) = false
  /\ isValidTokenAmount (lit "1a.2") 6 = false
  /\ parseTokenAmount (lit "12 x4.5") 6 = Throw SyntaxError.
Proof.
  split; [reflexivity|]. split.
  - exact (proj1 (invalid_amount_rejected (lit "1a.2") 6) (or_introl eq_refl)).
  - apply (proj1 (proj2 (proj2 (proj2 (invalid_amount_rejected (lit "12 x4.5") 6))))
             "1"%char (lit "2 x4") "x"%char); try reflexivity.
    cbn. tauto.
Defined.

(** C2, as stated, fails on an integer part with a leading zero: "01" has no
    fractional part and no trailing zero, and comes back as "1". *)
Lemma roundTrip_leading_zero :
  isDisplayAmount (lit "01") = true
  /\ fractionFits (lit "01") 6 = true
  /\ noTrailingZero (lit "01") = true
  /\ roundTrip (lit "01") 6 = Ok (lit "1")
  /\ roundTrip (lit "01") 6 <> Ok (lit "01").
Proof.
  repeat split; try (vm_compute; reflexivity).
  vm_compute. discriminate.
Qed.

(** C2, amended.  For every display string whose integer part has no
    superfluous leading zero, whose fractional part has at most [decimals]
    digits and no trailing zero, and for [decimals] up to 22, formatting the
    parsed amount gives the string back. *)
Theorem roundTrip_identity (x : jsstring) (decimals : nat) :
  isDisplayAmount x = true ->
  noLeadingZero x = true ->
  fractionFits x decimals = true ->
  noTrailingZero x = true ->
  (decimals <= 22)%nat ->
  roundTrip x decimals = Ok x.
Proof.
  intros Hdisp Hlead Hfit Htrail Hdec.
  unfold noLeadingZero in Hlead. unfold fractionFits in Hfit.
  unfold noTrailingZero in Htrail. apply negb_true_iff in Htrail.
  apply Nat.leb_le in Hfit.
  pose proof (canonicalDigits_forallb _ Hlead) as Hw.
  pose proof (digitsValue_range _ Hw) as Hwr.
  pose proof (pow10_pos decimals) as Hp.
  unfold roundTrip.
  destruct (isDisplayAmount_shape x Hdisp) as [(Hx & Hnone & _)|(f & Hsome & Hf & _ & Hx)].
  - assert (Hfrac : fractionOrEmpty x = []) by (unfold fractionOrEmpty; rewrite Hnone; reflexivity).
    rewrite parseTokenAmount_digits by (rewrite ?Hfrac; assumption || reflexivity).
    cbn [bind]. rewrite Hfrac.
    replace (slice0 (padEnd0 [] decimals) decimals) with (zeros decimals)
      by (unfold slice0, padEnd0; cbn [app length]; rewrite Nat.sub_0_r;
          symmetry; apply firstn_all2; rewrite length_zeros; lia).
    rewrite digitsValue_zeros, Z.add_0_r.
    rewrite formatTokenAmount_exact by (assumption || nia).
    rewrite Z.mod_mul by lia. cbn [Z.eqb].
    rewrite Z.div_mul by lia.
    rewrite bigintToString_canonical by assumption.
    congruence.
  - assert (Hfrac : fractionOrEmpty x = f) by (unfold fractionOrEmpty; rewrite Hsome; reflexivity).
    rewrite Hfrac in *.
    apply matchesDigits_forallb in Hf. destruct Hf as [Hne Hf].
    destruct (endsInZero_last f Hne Htrail) as (f0 & c & Hf0 & Hc).
    rewrite parseTokenAmount_digits by (rewrite ?Hfrac; assumption).
    cbn [bind]. rewrite Hfrac.
    set (padded := f ++ zeros (decimals - length f)).
    assert (Hlen : length padded = decimals)
      by (unfold padded; rewrite length_app, length_zeros; lia).
    assert (Hslice : slice0 (padEnd0 f decimals) decimals = padded)
      by (unfold slice0, padEnd0; apply firstn_all2; fold padded; lia).
    rewrite Hslice.
    assert (Hpd : forallb isDigit padded = true)
      by (unfold padded; rewrite forallb_app, Hf, forallb_zeros; reflexivity).
    pose proof (digitsValue_range _ Hpd) as Hpr. rewrite Hlen in Hpr.
    assert (Hpos : 0 < digitsValue padded).
    { unfold padded. rewrite digitsValue_app, digitsValue_zeros, length_zeros.
      assert (1 <= digitsValue f).
      { rewrite Hf0, digitsValue_app. cbn [length].
        change (digitsValue [c]) with (0 * 10 + digitValue c).
        rewrite Hf0, forallb_app in Hf. apply andb_true_iff in Hf.
        destruct Hf as [Hf1 Hf2]. cbn [forallb] in Hf2. rewrite andb_true_r in Hf2.
        pose proof (digitsValue_range _ Hf1).
        pose proof (zero_char_value c Hf2 Hc).
        change (10 ^ Z.of_nat 1) with 10. lia. }
      pose proof (pow10_pos (decimals - length f)). nia. }
    rewrite formatTokenAmount_exact by (assumption || nia).
    set (W := digitsValue (integerPart x)) in *.
    set (F := digitsValue padded) in *.
    replace ((W * 10 ^ Z.of_nat decimals + F) mod 10 ^ Z.of_nat decimals) with F
      by (apply Z.mod_unique with (q := W); lia).
    replace ((W * 10 ^ Z.of_nat decimals + F) / 10 ^ Z.of_nat decimals) with W
      by (apply Z.div_unique with (r := F); lia).
    replace (F =? 0) with false by (symmetry; apply Z.eqb_neq; lia).
    unfold W, F.
    rewrite bigintToString_canonical by assumption.
    pose proof (padStart0_toString padded Hpd Hpos) as Hps.
    rewrite Hlen in Hps. rewrite Hps.
    unfold padded. rewrite Hf0, stripTrailingZeros_padded by assumption.
    rewrite <- Hf0. congruence.
Qed.

Lemma roundTrip_identity_witness :
  roundTrip (lit "12.345") 6 = Ok (lit "12.345").
Proof.
  apply (roundTrip_identity (lit "12.345") 6); try reflexivity.
  lia.
Defined.

(** ** Numbers: rounding to the nearest double *)

Section Rounding.

Lemma roundHalfEven_floor (num den : Z) :
  0 < den -> num / den <= roundHalfEven num den <= num / den + 1.
Proof.
  intros H. unfold roundHalfEven.
  destruct (2 * (num mod den) <? den); [lia|].
  destruct (den <? 2 * (num mod den)); [lia|].
  destruct (Z.even (num / den)); lia.
Qed.

(** Rounding does not cross an integer. *)
Lemma roundHalfEven_le (num den n : Z) :
  0 < den -> num <= n * den -> roundHalfEven num den <= n.
Proof.
  intros Hden H.
  pose proof (Z.div_mod num den ltac:(lia)) as Hdm.
  pose proof (Z.mod_pos_bound num den Hden) as Hm.
  assert (Hq : num / den <= n) by (apply Z.div_le_upper_bound; lia).
  destruct (Z.eq_dec (num / den) n) as [E|E].
  - assert (Hr : num mod den = 0) by nia.
    unfold roundHalfEven. rewrite Hr.
    replace (2 * 0 <? den) with true by (symmetry; apply Z.ltb_lt; lia).
    lia.
  - pose proof (roundHalfEven_floor num den Hden). lia.
Qed.

Lemma roundHalfEven_ge (num den n : Z) :
  0 < den -> n * den <= num -> n <= roundHalfEven num den.
Proof.
  intros Hden H.
  assert (Hq : n <= num / den) by (apply Z.div_le_lower_bound; lia).
  pose proof (roundHalfEven_floor num den Hden). lia.
Qed.

(** [floorLog2] is not above the logarithm: [2^e <= p / q]. *)
Lemma floorLog2_below (p q : Z) :
  0 < p -> 0 < q -> pow2Le (floorLog2 p q) p q = true.
Proof.
  intros Hp Hq. unfold floorLog2.
  destruct (pow2Le (Z.log2 p - Z.log2 q) p q) eqn:E; [exact E|].
  pose proof (Z.log2_spec p Hp) as [Hpl _].
  pose proof (Z.log2_spec q Hq) as [_ Hqu].
  pose proof (Z.log2_nonneg p) as Ha. pose proof (Z.log2_nonneg q) as Hb.
  set (a := Z.log2 p) in *. set (b := Z.log2 q) in *.
  unfold pow2Le.
  destruct (0 <=? a - b - 1) eqn:Ek.
  - apply Z.leb_le in Ek. apply Z.leb_le.
    assert (Hs : 2 ^ a = 2 ^ Z.succ b * 2 ^ (a - b - 1)).
    { rewrite <- Z.pow_add_r by lia. f_equal. lia. }
    assert (0 < 2 ^ (a - b - 1)) by (apply Z.pow_pos_nonneg; lia).
    nia.
  - apply Z.leb_gt in Ek. apply Z.leb_le.
    assert (Hs : 2 ^ Z.succ b = 2 ^ a * 2 ^ (- (a - b - 1))).
    { rewrite <- Z.pow_add_r by lia. f_equal. lia. }
    assert (0 < 2 ^ (- (a - b - 1))) by (apply Z.pow_pos_nonneg; lia).
    nia.
Qed.

(** A quotient that is at most [c], below [2^20], does not round above [c]. *)
Lemma nearestDouble_le (p q c : Z) :
  0 < p -> 0 < q -> 0 <= c < 2 ^ 20 -> p <= c * q ->
  gtInteger (nearestDouble false p q) c = false.
Proof.
  intros Hp Hq Hc Hle.
  pose proof (floorLog2_below p q Hp Hq) as Hbelow.
  set (e := floorLog2 p q) in *.
  assert (He : e < 20).
  { destruct (Z_lt_ge_dec e 20) as [|Hge]; [assumption|exfalso].
    unfold pow2Le in Hbelow.
    replace (0 <=? e) with true in Hbelow by (symmetry; apply Z.leb_le; lia).
    apply Z.leb_le in Hbelow.
    assert (2 ^ 20 <= 2 ^ e) by (apply Z.pow_le_mono_r; lia).
    nia. }
  unfold nearestDouble. fold e.
  set (ed := Z.max (e - 52) (-1074)).
  assert (Hed : ed < 0) by (unfold ed; lia).
  replace (0 <=? ed) with false by (symmetry; apply Z.leb_gt; lia).
  cbn [andb gtInteger].
  replace (0 <=? ed) with false by (symmetry; apply Z.leb_gt; lia).
  apply Z.ltb_ge. apply roundHalfEven_le; [assumption|].
  assert (0 < 2 ^ (- ed)) by (apply Z.pow_pos_nonneg; lia).
  nia.
Qed.

(** A quotient that is at least [c + 1], for [c] below [2^52], rounds above
    [c]. *)
Lemma nearestDouble_gt (p q c : Z) :
  0 < p -> 0 < q -> 0 <= c < 2 ^ 52 -> (c + 1) * q <= p ->
  gtInteger (nearestDouble false p q) c = true.
Proof.
  intros Hp Hq Hc Hge.
  pose proof (floorLog2_below p q Hp Hq) as Hbelow.
  set (e := floorLog2 p q) in *.
  unfold nearestDouble. fold e.
  set (ed := Z.max (e - 52) (-1074)).
  destruct (0 <=? ed) eqn:Eed.
  - apply Z.leb_le in Eed.
    assert (He : 52 <= e) by (unfold ed in Eed; lia).
    assert (Hed : ed = e - 52) by (unfold ed; lia).
    unfold pow2Le in Hbelow.
    replace (0 <=? e) with true in Hbelow by (symmetry; apply Z.leb_le; lia).
    apply Z.leb_le in Hbelow.
    assert (Hpow : 2 ^ e = 2 ^ 52 * 2 ^ ed).
    { rewrite <- Z.pow_add_r by lia. f_equal. lia. }
    assert (Hpe : 0 < 2 ^ ed) by (apply Z.pow_pos_nonneg; lia).
    assert (Hm : 2 ^ 52 <= roundHalfEven p (q * 2 ^ ed)).
    { apply roundHalfEven_ge; nia. }
    destruct (2 ^ 1024 <=? roundHalfEven p (q * 2 ^ ed) * 2 ^ ed); cbn [andb gtInteger].
    + reflexivity.
    + replace (0 <=? ed) with true by (symmetry; apply Z.leb_le; lia).
      apply Z.ltb_lt. nia.
  - apply Z.leb_gt in Eed. cbn [andb gtInteger].
    replace (0 <=? ed) with false by (symmetry; apply Z.leb_gt; lia).
    apply Z.ltb_lt.
    assert (0 < 2 ^ (- ed)) by (apply Z.pow_pos_nonneg; lia).
    assert ((c + 1) * 2 ^ (- ed) <= roundHalfEven (p * 2 ^ (- ed)) q).
    { apply roundHalfEven_ge; nia. }
    nia.
Qed.

(** The same for decimals [m * 10^(-k)]. *)
Lemma numberOfDecimal_le (m : Z) (k : nat) (c : Z) :
  0 <= m -> 0 <= c < 2 ^ 20 -> m <= c * 10 ^ Z.of_nat k ->
  gtInteger (numberOfDecimal false m (- Z.of_nat k)) c = false.
Proof.
  intros Hm Hc Hle. unfold numberOfDecimal.
  destruct (m =? 0) eqn:E0.
  - cbn [gtInteger Z.leb]. cbn. apply Z.ltb_ge. lia.
  - apply Z.eqb_neq in E0.
    pose proof (pow10_pos k) as Hk.
    destruct (0 <=? - Z.of_nat k) eqn:Ek.
    + apply Z.leb_le in Ek. assert (k = 0%nat) by lia. subst k.
      cbn [Z.of_nat Z.opp Z.pow] in *.
      apply nearestDouble_le; lia.
    + rewrite Z.opp_involutive. apply nearestDouble_le; lia.
Qed.

Lemma numberOfDecimal_gt (m : Z) (k : nat) (c : Z) :
  0 <= c < 2 ^ 52 -> (c + 1) * 10 ^ Z.of_nat k <= m ->
  gtInteger (numberOfDecimal false m (- Z.of_nat k)) c = true.
Proof.
  intros Hc Hge. unfold numberOfDecimal.
  pose proof (pow10_pos k) as Hk.
  assert (Hm : 0 < m) by nia.
  replace (m =? 0) with false by (symmetry; apply Z.eqb_neq; lia).
  destruct (0 <=? - Z.of_nat k) eqn:Ek.
  - apply Z.leb_le in Ek. assert (k = 0%nat) by lia. subst k.
    cbn [Z.of_nat Z.opp Z.pow] in *.
    apply nearestDouble_gt; lia.
  - rewrite Z.opp_involutive. apply nearestDouble_gt; lia.
Qed.

(** Rounding goes above an even integer [n] exactly when the quotient is
    more than one half above it. *)
Lemma roundHalfEven_above (num den n : Z) :
  0 < den -> Z.even n = true ->
  (n < roundHalfEven num den <-> (2 * n + 1) * den < 2 * num).
Proof.
  intros Hden Hn.
  pose proof (Z.div_mod num den ltac:(lia)) as Hdm.
  pose proof (Z.mod_pos_bound num den Hden) as Hm.
  apply Z.even_spec in Hn. destruct Hn as [k Hk].
  unfold roundHalfEven.
  set (q := num / den) in *. set (r := num mod den) in *.
  destruct (2 * r <? den) eqn:E1.
  - apply Z.ltb_lt in E1. split; intros H.
    + assert (n + 1 <= q) by lia. nia.
    + destruct (Z_lt_ge_dec n q); [assumption|]. nia.
  - apply Z.ltb_ge in E1.
    destruct (den <? 2 * r) eqn:E2.
    + apply Z.ltb_lt in E2. split; intros H.
      * assert (n <= q) by lia. nia.
      * destruct (Z_lt_ge_dec n (q + 1)); [assumption|]. nia.
    + apply Z.ltb_ge in E2. assert (Hr : 2 * r = den) by lia.
      destruct (Z.even q) eqn:Eq.
      * split; intros H; [nia|].
        destruct (Z_lt_ge_dec n q); [assumption|]. nia.
      * assert (Hodd : Z.odd q = true) by (rewrite <- Z.negb_even, Eq; reflexivity).
        apply Z.odd_spec in Hodd. destruct Hodd as [j Hj].
        split; intros H.
        -- assert (n < q) by lia. nia.
        -- destruct (Z_lt_ge_dec n (q + 1)); [assumption|]. nia.
Qed.

Lemma floorLog2_19 (p q : Z) :
  0 < p -> 0 < q -> 2 ^ 19 * q <= p < 2 ^ 20 * q -> floorLog2 p q = 19.
Proof.
  intros Hp Hq [Hlo Hhi].
  pose proof (Z.log2_spec p Hp) as [Hpl Hpu].
  pose proof (Z.log2_spec q Hq) as [Hql Hqu].
  pose proof (Z.log2_nonneg p) as Ha. pose proof (Z.log2_nonneg q) as Hb.
  unfold floorLog2.
  set (a := Z.log2 p) in *. set (b := Z.log2 q) in *.
  assert (H1 : 19 + b < Z.succ a).
  { apply (Z.pow_lt_mono_r_iff 2); [lia|lia|].
    rewrite Z.pow_add_r by lia. nia. }
  assert (H2 : a < 20 + Z.succ b).
  { apply (Z.pow_lt_mono_r_iff 2); [lia|lia|].
    rewrite Z.pow_add_r by lia. nia. }
  assert (Hk : a - b = 19 \/ a - b = 20) by lia.
  destruct Hk as [-> | ->]; unfold pow2Le.
  - replace (0 <=? 19) with true by reflexivity.
    replace (q * 2 ^ 19 <=? p) with true by (symmetry; apply Z.leb_le; lia).
    reflexivity.
  - replace (0 <=? 20) with true by reflexivity.
    replace (q * 2 ^ 20 <=? p) with false by (symmetry; apply Z.leb_gt; lia).
    reflexivity.
Qed.

(** The exact threshold: the double nearest to [p / q] is greater than
    1000000 exactly when [p / q] is more than [2^-34], half the distance to
    the next double, above it. *)
Lemma nearestDouble_million (p q : Z) :
  0 < p -> 0 < q ->
  gtInteger (nearestDouble false p q) 1000000
  = ((1000000 * 2 ^ 34 + 1) * q <? p * 2 ^ 34).
Proof.
  intros Hp Hq.
  destruct (Z_le_gt_dec p (1000000 * q)) as [Hle|Hgt].
  { rewrite nearestDouble_le by lia. symmetry. apply Z.ltb_ge. lia. }
  destruct (Z_le_gt_dec (1000001 * q) p) as [Hge|Hlt].
  { rewrite nearestDouble_gt by lia. symmetry. apply Z.ltb_lt. lia. }
  unfold nearestDouble. rewrite floorLog2_19 by lia.
  change (Z.max (19 - 52) (-1074)) with (-33).
  change (0 <=? -33) with false. cbn [andb gtInteger].
  change (0 <=? -33) with false. cbv iota.
  change (- -33) with 33.
  pose proof (roundHalfEven_above (p * 2 ^ 33) q (1000000 * 2 ^ 33) Hq eq_refl) as H.
  destruct (1000000 * 2 ^ 33 <? roundHalfEven (p * 2 ^ 33) q) eqn:E.
  - apply Z.ltb_lt in E. apply H in E. symmetry. apply Z.ltb_lt. lia.
  - apply Z.ltb_ge in E. symmetry. apply Z.ltb_ge.
    destruct (Z_lt_ge_dec (p * 2 ^ 34) ((1000000 * 2 ^ 34 + 1) * q)) as [|Hc]; [lia|].
    destruct (Z.eq_dec (p * 2 ^ 34) ((1000000 * 2 ^ 34 + 1) * q)); [lia|].
    assert (Hlt2 : (2 * (1000000 * 2 ^ 33) + 1) * q < 2 * (p * 2 ^ 33)) by lia.
    apply H in Hlt2. lia.
Qed.

(** The same for decimals [m * 10^(-k)]. *)
Lemma numberOfDecimal_million (m : Z) (k : nat) :
  0 <= m ->
  gtInteger (numberOfDecimal false m (- Z.of_nat k)) 1000000
  = ((1000000 * 2 ^ 34 + 1) * 10 ^ Z.of_nat k <? m * 2 ^ 34).
Proof.
  intros Hm. unfold numberOfDecimal.
  pose proof (pow10_pos k) as Hk.
  destruct (m =? 0) eqn:E0.
  - apply Z.eqb_eq in E0. subst m. cbn [gtInteger].
    symmetry. apply Z.ltb_ge. lia.
  - apply Z.eqb_neq in E0.
    destruct (0 <=? - Z.of_nat k) eqn:Ek.
    + apply Z.leb_le in Ek. assert (k = 0%nat) by lia. subst k.
      change (- Z.of_nat 0) with 0. change (10 ^ Z.of_nat 0) with 1.
      change (10 ^ 0) with 1.
      rewrite nearestDouble_million by lia.
      f_equal; lia.
    + rewrite Z.opp_involutive. apply nearestDouble_million; lia.
Qed.

End Rounding.

(** ** [parseFloat] on display amounts *)

Section ParseFloat.

Lemma spanDigits_all (w : jsstring) :
  forallb isDigit w = true -> spanDigits w = (w, []).
Proof.
  induction w as [|c w IH]; intros H; [reflexivity|].
  cbn [forallb] in H. apply andb_true_iff in H. destruct H as [Hc Hw].
  cbn [spanDigits]. rewrite Hc, IH by assumption. reflexivity.
Qed.

Lemma spanDigits_point (w r : jsstring) :
  forallb isDigit w = true ->
  spanDigits (w ++ "."%char :: r) = (w, "."%char :: r).
Proof.
  induction w as [|c w IH]; intros H; [reflexivity|].
  cbn [forallb] in H. apply andb_true_iff in H. destruct H as [Hc Hw].
  cbn [spanDigits app]. rewrite Hc, IH by assumption. reflexivity.
Qed.

Lemma unsigned_digit_start (c : ascii) (s : jsstring) :
  isDigit c = true -> startsWith (lit "Infinity") (c :: s) = false.
Proof.
  intros H. cbn [lit list_ascii_of_string startsWith].
  rewrite Ascii.eqb_sym, (isDigit_eqb_false c) by (assumption || reflexivity).
  reflexivity.
Qed.

(** [parseFloat] reads a display amount as the decimal it writes. *)
Lemma parseFloat_display (x : jsstring) :
  isDisplayAmount x = true ->
  parseFloat x
  = numberOfDecimal false (digitsValue (integerPart x ++ fractionOrEmpty x))
      (- Z.of_nat (length (fractionOrEmpty x))).
Proof.
  intros H.
  destruct (isDisplayAmount_shape x H) as [(Hx & Hnone & Hm)|(f & Hsome & Hf & Hw & Hx)].
  - unfold fractionOrEmpty. rewrite Hnone, app_nil_r, <- Hx.
    apply matchesDigits_forallb in Hm. destruct Hm as [Hne Hall].
    destruct x as [|c r]; [contradiction|].
    pose proof Hall as Hall'. cbn [forallb] in Hall'.
    apply andb_true_iff in Hall'. destruct Hall' as [Hc _].
    unfold parseFloat. rewrite trimStart_digit by assumption.
    rewrite !(isDigit_eqb_false c) by (assumption || reflexivity).
    unfold unsignedDecimalLiteral.
    rewrite unsigned_digit_start, spanDigits_all by assumption.
    reflexivity.
  - unfold fractionOrEmpty. rewrite Hsome.
    apply matchesDigits_forallb in Hw. destruct Hw as [Hwne Hwall].
    apply matchesDigits_forallb in Hf. destruct Hf as [Hfne Hfall].
    set (w := integerPart x) in *. rewrite Hx at 1.
    destruct w as [|c r] eqn:Ew; [contradiction|].
    pose proof Hwall as Hall'. cbn [forallb] in Hall'.
    apply andb_true_iff in Hall'. destruct Hall' as [Hc _].
    unfold parseFloat. cbn [app]. rewrite trimStart_digit by assumption.
    rewrite !(isDigit_eqb_false c) by (assumption || reflexivity).
    unfold unsignedDecimalLiteral.
    rewrite unsigned_digit_start by assumption.
    change (c :: r ++ "."%char :: f) with ((c :: r) ++ "."%char :: f).
    rewrite spanDigits_point by assumption.
    rewrite Ascii.eqb_refl, spanDigits_all by assumption.
    destruct f as [|d f']; [contradiction|].
    cbn [exponentPart]. rewrite Z.sub_0_l. reflexivity.
Qed.

End ParseFloat.

(** ** Token lookup, normalization and summary *)

Import Samples.

Section Tokens.

(** Every entry of the table is stored under its own symbol, with 6 or 18
    decimals. *)
Lemma lookup_entry (key : jsstring) (info : TokenInfo) :
  lookup key ARBITRUM_TOKENS = Some info ->
  symbol info = key /\ (decimals info = 6 \/ decimals info = 18)%nat.
Proof.
  unfold ARBITRUM_TOKENS. cbn [lookup].
  repeat (destruct (strEqb _ key) eqn:E;
          [apply strEqb_eq in E; subst key; intros H; injection H as <-;
           split; [reflexivity | cbn; lia]
          |clear E]).
  discriminate.
Qed.

Lemma getTokenInfo_symbol (s : jsstring) : symbol (getTokenInfo s) = toUpperCase s.
Proof.
  unfold getTokenInfo.
  destruct (lookup (toUpperCase s) ARBITRUM_TOKENS) as [info|] eqn:E; [|reflexivity].
  apply lookup_entry in E. tauto.
Qed.

Lemma getTokenInfo_decimals (s : jsstring) :
  (decimals (getTokenInfo s) = 6 \/ decimals (getTokenInfo s) = 18)%nat.
Proof.
  unfold getTokenInfo.
  destruct (lookup (toUpperCase s) ARBITRUM_TOKENS) as [info|] eqn:E.
  - apply lookup_entry in E. tauto.
  - right. reflexivity.
Qed.

Lemma withAmount_same (data : TransactionData) : withAmount data (amount data) = data.
Proof. destruct data. reflexivity. Qed.

(** On a display amount the normalization does not throw. *)
Lemma formatTransactionData_display (data : TransactionData) :
  isDisplayAmount (amount data) = true ->
  exists converted,
    formatTokenAmount (AmountBigInt (digitsValue (integerPart (amount data))))
      (decimals (getTokenInfo (tokenName data))) = Ok converted
    /\ formatTransactionData data
       = Ok (if gtInteger (parseFloat (amount data)) 1000000
             then withAmount data converted else data).
Proof.
  intros H.
  assert (Hw : forallb isDigit (integerPart (amount data)) = true).
  { destruct (isDisplayAmount_shape _ H) as [(Hx & _ & Hm)|(f & _ & _ & Hm & _)].
    - rewrite <- Hx. apply matchesDigits_forallb in Hm. tauto.
    - apply matchesDigits_forallb in Hm. tauto. }
  pose proof (digitsValue_range _ Hw) as Hr.
  assert (Hd : (decimals (getTokenInfo (tokenName data)) <= 22)%nat)
    by (destruct (getTokenInfo_decimals (tokenName data)); lia).
  eexists. split.
  - apply formatTokenAmount_exact; [lia | assumption].
  - unfold formatTransactionData.
    destruct (gtInteger (parseFloat (amount data)) 1000000).
    + fold (integerPart (amount data)).
      rewrite (BigIntOfString_digits _ Hw). cbn [bind].
      rewrite formatTokenAmount_exact by (lia || assumption).
      reflexivity.
    + cbn [bind]. f_equal. apply withAmount_same.
Qed.

(** Up to 22 decimals [formatTokenAmount] returns a text for every bigint. *)
Lemma formatTokenAmount_total (n : Z) (d : nat) :
  (d <= 22)%nat -> exists out, formatTokenAmount (AmountBigInt n) d = Ok out.
Proof.
  intros Hd. unfold formatTokenAmount. cbn [bind].
  rewrite divisor_exact by assumption. cbn [bind].
  pose proof (pow10_pos d) as Hp. unfold bigintDiv, bigintRem.
  replace (10 ^ Z.of_nat d =? 0) with false by (symmetry; apply Z.eqb_neq; lia).
  cbn [bind]. destruct (Z.rem n (10 ^ Z.of_nat d) =? 0); eexists; reflexivity.
Qed.

Lemma tokenDecimals_small (name : jsstring) :
  (decimals (getTokenInfo name) <= 22)%nat.
Proof. destruct (getTokenInfo_decimals name); lia. Qed.

Lemma formatTransactionData_small (data : TransactionData) :
  gtInteger (parseFloat (amount data)) 1000000 = false ->
  formatTransactionData data = Ok data.
Proof.
  intros H. unfold formatTransactionData. rewrite H. cbn [bind].
  f_equal. apply withAmount_same.
Qed.

Lemma lookup_In (key : jsstring) (table : list (jsstring * TokenInfo)) (info : TokenInfo) :
  lookup key table = Some info -> In (key, info) table.
Proof.
  induction table as [|[k v] rest IH]; cbn [lookup]; [discriminate|].
  destruct (strEqb k key) eqn:E.
  - apply strEqb_eq in E. subst k. intros H. injection H as <-. left. reflexivity.
  - intros H. right. apply IH. exact H.
Qed.

(** The keys of the table are distinct: every entry is found under its key. *)
Lemma lookup_found (key : jsstring) (info : TokenInfo) :
  In (key, info) ARBITRUM_TOKENS -> lookup key ARBITRUM_TOKENS = Some info.
Proof.
  unfold ARBITRUM_TOKENS.
  intros [H|[H|[H|[H|[H|[]]]]]]; injection H as <- <-; reflexivity.
Qed.

End Tokens.

(** C3, as stated, fails between 1000000 and the next double: the amount
    1000000.00000000001 is greater than 1000000, [parseFloat] reads it as
    1000000, and the data is returned unchanged. *)
Lemma formatTransactionData_just_above :
  let data := supplyOf "USDC" "1000000.00000000001" in
  isDisplayAmount (amount data) = true
  /\ 1000000 * 10 ^ Z.of_nat (length (fractionOrEmpty (amount data)))
     < digitsValue (integerPart (amount data) ++ fractionOrEmpty (amount data))
  /\ formatTransactionData data = Ok data.
Proof.
  vm_compute. repeat split; reflexivity.
Qed.

(** C3, amended.  [formatTransactionData] goes by the number [parseFloat]
    reads from the amount.  When that number is not greater than 1000000 the
    data is returned unchanged, whatever the amount.  When it is, the integer
    part of the amount is given to [BigInt]: the amount is replaced by
    [formatTokenAmount] of the result at the decimals of the token, or a
    SyntaxError is thrown when [BigInt] rejects the integer part.  For a
    display amount, of digits N after removal of the point and k fractional
    digits, the number read is greater than 1000000 exactly when the value
    N / 10^k is more than [2^-34] above 1000000; so the amount is converted
    exactly then, never for a value of at most 1000000 and always for an
    integer part of 1000001 or more. *)
Theorem formatTransactionData_threshold (data : TransactionData) :
  (gtInteger (parseFloat (amount data)) 1000000 = false ->
   formatTransactionData data = Ok data)
  /\ (gtInteger (parseFloat (amount data)) 1000000 = true ->
      match BigIntOfString (integerPart (amount data)) with
      | Ok n =>
          exists converted,
            formatTokenAmount (AmountBigInt n) (decimals (getTokenInfo (tokenName data)))
            = Ok converted
            /\ formatTransactionData data = Ok (withAmount data converted)
      | Throw e => e = SyntaxError /\ formatTransactionData data = Throw SyntaxError
      end)
  /\ (isDisplayAmount (amount data) = true ->
      exists converted,
        formatTokenAmount (AmountBigInt (digitsValue (integerPart (amount data))))
          (decimals (getTokenInfo (tokenName data))) = Ok converted
        /\ gtInteger (parseFloat (amount data)) 1000000
           = ((1000000 * 2 ^ 34 + 1) * 10 ^ Z.of_nat (length (fractionOrEmpty (amount data)))
              <? digitsValue (integerPart (amount data) ++ fractionOrEmpty (amount data))
                 * 2 ^ 34)
        /\ ((1000000 * 2 ^ 34 + 1) * 10 ^ Z.of_nat (length (fractionOrEmpty (amount data)))
            < digitsValue (integerPart (amount data) ++ fractionOrEmpty (amount data)) * 2 ^ 34 ->
            formatTransactionData data = Ok (withAmount data converted))
        /\ (digitsValue (integerPart (amount data) ++ fractionOrEmpty (amount data)) * 2 ^ 34
            <= (1000000 * 2 ^ 34 + 1) * 10 ^ Z.of_nat (length (fractionOrEmpty (amount data))) ->
            formatTransactionData data = Ok data)
        /\ (digitsValue (integerPart (amount data) ++ fractionOrEmpty (amount data))
            <= 1000000 * 10 ^ Z.of_nat (length (fractionOrEmpty (amount data))) ->
            formatTransactionData data = Ok data)
        /\ (1000001 <= digitsValue (integerPart (amount data)) ->
            formatTransactionData data = Ok (withAmount data converted))).
Proof.
  split; [apply formatTransactionData_small|]. split.
  - intros Hgt. unfold formatTransactionData. rewrite Hgt.
    fold (integerPart (amount data)).
    destruct (BigIntOfString (integerPart (amount data))) as [n|e] eqn:En; cbn [bind].
    + destruct (formatTokenAmount_total n _ (tokenDecimals_small (tokenName data)))
        as (converted & Hconv).
      exists converted. split; [exact Hconv|]. rewrite Hconv. reflexivity.
    + apply BigIntOfString_error in En. subst e. split; reflexivity.
  - intros H.
    destruct (formatTransactionData_display data H) as (converted & Hconv & Hfmt).
    exists converted. split; [exact Hconv|].
    assert (Hparts : forallb isDigit (integerPart (amount data)) = true
                     /\ forallb isDigit (fractionOrEmpty (amount data)) = true).
    { destruct (isDisplayAmount_shape _ H) as [(Hx & Hnone & Hm)|(f & Hsome & Hf & Hm & _)].
      - unfold fractionOrEmpty. rewrite Hnone, <- Hx.
        apply matchesDigits_forallb in Hm. tauto.
      - unfold fractionOrEmpty. rewrite Hsome.
        apply matchesDigits_forallb in Hm, Hf. tauto. }
    destruct Hparts as [Hw Hf].
    pose proof (digitsValue_range _ Hw) as Hwr.
    pose proof (digitsValue_range _ Hf) as Hfr.
    pose proof (pow10_pos (length (fractionOrEmpty (amount data)))) as Hp.
    assert (Hn : 0 <= digitsValue (integerPart (amount data) ++ fractionOrEmpty (amount data))).
    { rewrite digitsValue_app. nia. }
    assert (Hexact : gtInteger (parseFloat (amount data)) 1000000
              = ((1000000 * 2 ^ 34 + 1)
                 * 10 ^ Z.of_nat (length (fractionOrEmpty (amount data)))
                 <? digitsValue (integerPart (amount data) ++ fractionOrEmpty (amount data))
                    * 2 ^ 34)).
    { rewrite (parseFloat_display _ H). apply numberOfDecimal_million. exact Hn. }
    split; [exact Hexact|].
    rewrite Hfmt, Hexact.
    assert (Hsplit : digitsValue (integerPart (amount data) ++ fractionOrEmpty (amount data))
                     = digitsValue (integerPart (amount data))
                       * 10 ^ Z.of_nat (length (fractionOrEmpty (amount data)))
                       + digitsValue (fractionOrEmpty (amount data)))
      by apply digitsValue_app.
    repeat split; intros Hv.
    + replace (_ <? _) with true by (symmetry; apply Z.ltb_lt; exact Hv). reflexivity.
    + replace (_ <? _) with false by (symmetry; apply Z.ltb_ge; exact Hv). reflexivity.
    + replace (_ <? _) with false by (symmetry; apply Z.ltb_ge; lia). reflexivity.
    + replace (_ <? _) with true by (symmetry; apply Z.ltb_lt; nia). reflexivity.
Qed.

Lemma formatTransactionData_threshold_witness :
  isDisplayAmount (amount (supplyOf "USDC" "2500000")) = true
  /\ formatTransactionData (supplyOf "USDC" "2500000") = Ok (supplyOf "USDC" "2.5")
  /\ formatTransactionData (supplyOf "USDC" "0.1") = Ok (supplyOf "USDC" "0.1")
  /\ formatTransactionData (supplyOf "USDC" "25e5") = Throw SyntaxError.
Proof.
  split; [reflexivity|]. split; [|split].
  - destruct (proj2 (proj2 (formatTransactionData_threshold (supplyOf "USDC" "2500000")))
                eq_refl)
      as (converted & Hconv & _ & _ & _ & _ & Hgt).
    rewrite Hgt by (vm_compute; discriminate).
    vm_compute in Hconv. injection Hconv as <-. reflexivity.
  - exact (proj1 (formatTransactionData_threshold (supplyOf "USDC" "0.1")) eq_refl).
  - pose proof (proj1 (proj2 (formatTransactionData_threshold (supplyOf "USDC" "25e5")))
                  eq_refl) as H.
    vm_compute in H. exact (proj2 H).
Defined.

(** C9.  [createTransactionSummary] is a function of its argument: for a
    transaction whose amount is a display amount it returns the action with
    its first letter in upper case, a space, the normalized amount, a space
    and the symbol of the token; equal arguments give equal summaries, and
    supply 0.1 USDC is summarized as "Supply 0.1 USDC". *)
Theorem createTransactionSummary_format (data : TransactionData) :
  isDisplayAmount (amount data) = true ->
  (exists normalized,
      formatTransactionData data = Ok normalized
      /\ createTransactionSummary data
         = Ok (capitalize (action data) ++ " "%char :: amount normalized
               ++ " "%char :: symbol (getTokenInfo (tokenName data))))
  /\ (forall other, other = data ->
        createTransactionSummary other = createTransactionSummary data)
  /\ createTransactionSummary
       {| tokenName := lit "USDC"; amount := lit "0.1"; action := lit "supply";
          TokenUtils.chainId := lit "42161"; txPlan := [] |}
     = Ok (lit "Supply 0.1 USDC").
Proof.
  intros H. split; [|split].
  - destruct (formatTransactionData_display data H) as (converted & _ & Hfmt).
    eexists. split; [exact Hfmt|].
    unfold createTransactionSummary. rewrite Hfmt. cbn [bind].
    destruct (gtInteger (parseFloat (amount data)) 1000000); reflexivity.
  - intros other ->. reflexivity.
  - vm_compute. reflexivity.
Qed.

Lemma createTransactionSummary_format_witness :
  isDisplayAmount (amount (supplyOf "weth" "3000000000000000000")) = true
  /\ createTransactionSummary (supplyOf "weth" "3000000000000000000")
     = Ok (lit "Supply 3 WETH").
Proof.
  split; [reflexivity|].
  destruct (createTransactionSummary_format (supplyOf "weth" "3000000000000000000") eq_refl)
    as ((normalized & Hfmt & Hsum) & _).
  rewrite Hsum. vm_compute in Hfmt. injection Hfmt as <-.
  reflexivity.
Defined.

(** C10.  [getTokenInfo] does not depend on the case of the symbol: the
    lookup of a symbol and of its upper case agree, and the symbol returned
    is the upper case of the argument.  A symbol whose upper case is a key of
    the table gets the entry stored under that key, so usdc gets USDC with
    its 6 decimals and its address; a symbol whose upper case is no key gets
    the upper-cased symbol with 18 decimals and no address.  A summary ends
    with the upper-case symbol, also when the token name comes in lower
    case. *)
Theorem getTokenInfo_uppercase (s : jsstring) :
  getTokenInfo s = getTokenInfo (toUpperCase s)
  /\ symbol (getTokenInfo s) = toUpperCase s
  /\ (forall key entry,
        In (key, entry) ARBITRUM_TOKENS -> toUpperCase s = key ->
        getTokenInfo s = entry)
  /\ ((forall entry, ~ In (toUpperCase s, entry) ARBITRUM_TOKENS) ->
      getTokenInfo s = {| symbol := toUpperCase s; decimals := 18; address := None |})
  /\ getTokenInfo (lit "usdc")
     = {| symbol := lit "USDC"; decimals := 6;
          address := Some (lit "0xaf88d065e77c8cC2239327C5EDb3A432268e5831") |}
  /\ (forall data summary,
        tokenName data = s -> createTransactionSummary data = Ok summary ->
        exists text, summary = text ++ " "%char :: toUpperCase s)
  /\ createTransactionSummary
       {| tokenName := lit "usdc"; amount := lit "0.1"; action := lit "supply";
          TokenUtils.chainId := lit "42161"; txPlan := [] |}
     = Ok (lit "Supply 0.1 USDC").
Proof.
  split; [|split; [|split; [|split; [|split; [|split]]]]].
  - unfold getTokenInfo. rewrite toUpperCase_idempotent. reflexivity.
  - apply getTokenInfo_symbol.
  - intros key entry Hin Hkey. unfold getTokenInfo.
    rewrite Hkey, (lookup_found key entry Hin). reflexivity.
  - intros Hnone. unfold getTokenInfo.
    destruct (lookup (toUpperCase s) ARBITRUM_TOKENS) as [entry|] eqn:E; [|reflexivity].
    apply lookup_In in E. destruct (Hnone entry E).
  - reflexivity.
  - intros data summary Hname Hsum.
    unfold createTransactionSummary in Hsum.
    destruct (formatTransactionData data) as [formatted|e]; cbn [bind] in Hsum;
      [|discriminate Hsum].
    injection Hsum as <-. rewrite Hname, getTokenInfo_symbol.
    exists (capitalize (action formatted) ++ " "%char :: amount formatted).
    rewrite <- app_assoc. reflexivity.
  - vm_compute. reflexivity.
Qed.

Lemma getTokenInfo_uppercase_witness :
  getTokenInfo (lit "weth")
  = {| symbol := lit "WETH"; decimals := 18;
       address := Some (lit "0x82aF49447D8a07e3bd95BD0d56f35241523fBab1") |}
  /\ getTokenInfo (lit "dai") = {| symbol := lit "DAI"; decimals := 18; address := None |}
  /\ createTransactionSummary (supplyOf "usdc" "0.1") = Ok (lit "Supply 0.1 USDC")
  /\ exists text, lit "Supply 0.1 USDC" = text ++ " "%char :: toUpperCase (lit "usdc").
Proof.
  split; [|split; [|split; [reflexivity|]]].
  - apply (proj1 (proj2 (proj2 (getTokenInfo_uppercase (lit "weth")))) (lit "WETH")).
    + right. right. right. left. reflexivity.
    + reflexivity.
  - apply (proj1 (proj2 (proj2 (proj2 (getTokenInfo_uppercase (lit "dai")))))).
    intros entry [H|[H|[H|[H|[H|[]]]]]]; discriminate H.
  - exact (proj1 (proj2 (proj2 (proj2 (proj2 (proj2 (getTokenInfo_uppercase (lit "usdc")))))))
             (supplyOf "usdc" "0.1") (lit "Supply 0.1 USDC") eq_refl eq_refl).
Defined.

(** ** The chat component *)

Section Handlers.
Import ChatTab Samples.

(** After the request, [handleSubmit] only adds messages. *)
Lemma handleAgentOutcome_log (ag : AgentOutcome) (s : State) :
  exists msgs, log (handleAgentOutcome ag s) = log s ++ msgs
               /\ forallb isMessage msgs = true.
Proof.
  unfold handleAgentOutcome.
  destruct ag as [| | |text [[raw| |]|]].
  all: try destruct (formatTransactionData raw) as [formatted|e].
  all: try destruct (createTransactionSummary formatted) as [summary|e'].
  all: cbn [log addMessage setCurrentTxIndex setPendingTransaction].
  all: rewrite <- ?app_assoc; eexists; split; reflexivity.
Qed.

Lemma filter_messages (p : Effect -> bool) (msgs : list Effect) :
  (forall type content, p (AddMessage type content) = false) ->
  forallb isMessage msgs = true -> filter p msgs = [].
Proof.
  intros Hp. induction msgs as [|e msgs IH]; intros H; [reflexivity|].
  cbn [forallb] in H. apply andb_true_iff in H. destruct H as [He Hm].
  destruct e; try discriminate He.
  cbn [filter]. rewrite Hp. apply IH. exact Hm.
Qed.

(** An approval sends the step at the current index; whether the receipt of
    the step before it has arrived plays no part. *)
Lemma approve_sends_current_step (s : State) (plan : TransactionData) (tx : TxStep) (v : Z) :
  pendingTransaction s = Some plan ->
  nth_error (txPlan plan) (currentTxIndex s) = Some tx ->
  BigIntOfString (match value tx with [] => lit "0" | t => t end) = Ok v ->
  exists stepType,
    log (handleTransactionApprove s)
    = log s ++ [ AddMessage system
                   (SendingStep stepType (currentTxIndex s + 1) (length (txPlan plan)));
                 SendTransaction (to tx) (data tx) v ].
Proof.
  intros Hplan Htx Hv. unfold handleTransactionApprove.
  rewrite Hplan, Htx, Hv. cbn [log setSending call addMessage].
  rewrite <- app_assoc. eexists. reflexivity.
Qed.

(** Without a plan in the slot the effect does nothing. *)
Lemma render_no_plan (old new : State) :
  pendingTransaction new = None -> render old new = new.
Proof.
  intros H.
  assert (Heff : confirmationEffect new = new)
    by (unfold confirmationEffect; rewrite H; reflexivity).
  unfold render. rewrite !Heff.
  destruct (depsChanged old new); [|reflexivity].
  destruct (depsChanged new new); reflexivity.
Qed.

(** When the effect empties the slot it does not run a second time. *)
Lemma render_effect_reset (old new : State) :
  depsChanged old new = true ->
  pendingTransaction (confirmationEffect new) = None ->
  render old new = confirmationEffect new.
Proof.
  intros Hdeps Hnone. unfold render. rewrite Hdeps.
  assert (Heff : confirmationEffect (confirmationEffect new) = confirmationEffect new).
  { unfold confirmationEffect at 1. rewrite Hnone. reflexivity. }
  rewrite Heff.
  destruct (depsChanged new (confirmationEffect new)); reflexivity.
Qed.

(** Rejecting an offered plan empties the slot and sends nothing. *)
Lemma reject_resets (s : State) :
  previewEnabled s = true ->
  idle (step s ClickReject) = true
  /\ log (step s ClickReject) = log s ++ [AddMessage system TransactionCancelled].
Proof.
  intros H. unfold step, handle. rewrite H.
  rewrite render_no_plan by reflexivity.
  split; reflexivity.
Qed.

(** A step that cannot be submitted empties the slot: [BigInt] throws on
    its value before the wallet is called. *)
Lemma submission_failure_resets (s : State) (plan : TransactionData) (tx : TxStep)
    (e : JSError) :
  previewEnabled s = true ->
  pendingTransaction s = Some plan ->
  nth_error (txPlan plan) (currentTxIndex s) = Some tx ->
  BigIntOfString (match value tx with [] => lit "0" | t => t end) = Throw e ->
  idle (step s ClickApprove) = true
  /\ filter isSendTransaction (log (step s ClickApprove))
     = filter isSendTransaction (log s).
Proof.
  intros Hen Hplan Htx Hv. unfold step, handle. rewrite Hen.
  unfold handleTransactionApprove. rewrite Hplan, Htx, Hv.
  rewrite render_no_plan by reflexivity.
  split; [reflexivity|].
  cbn [log approveFailed setCurrentTxIndex setPendingTransaction addMessage].
  rewrite !filter_app. cbn [filter isSendTransaction]. rewrite !app_nil_r. reflexivity.
Qed.

Lemma strEqb_refl (a : jsstring) : strEqb a a = true.
Proof. apply strEqb_eq. reflexivity. Qed.

Lemma depsChanged_same (s : State) : depsChanged s s = false.
Proof.
  unfold depsChanged, samePlanObject, optionStrEqb.
  rewrite Bool.eqb_reflx, Nat.eqb_refl.
  destruct (txHash s); rewrite ?strEqb_refl;
    destruct (pendingTransaction s); rewrite ?Nat.eqb_refl; reflexivity.
Qed.

(** An error of the wallet ends the request and nothing else: the plan, the
    index, the hash and the log stay as they are. *)
Lemma wallet_error_keeps_plan (s : State) :
  step s WalletError = setSending None s.
Proof.
  unfold step, handle, render.
  change (depsChanged s (setSending None s)) with (depsChanged s s).
  rewrite depsChanged_same. reflexivity.
Qed.

(** The confirmation of the last step empties the slot. *)
Lemma last_confirmation_resets (s : State) (plan : TransactionData) (summary h : jsstring) :
  pendingTransaction s = Some plan ->
  createTransactionSummary plan = Ok summary ->
  txHash s = Some h -> h <> [] -> isTxConfirmed s = false ->
  (length (txPlan plan) <= currentTxIndex s + 1)%nat ->
  idle (step s ReceiptObserved) = true
  /\ txHash (step s ReceiptObserved) = None
  /\ log (step s ReceiptObserved) = log s ++ [AddMessage system (TransactionConfirmed summary)].
Proof.
  intros Hplan Hsum Hhash Hne Hconf Hlast.
  unfold step, handle. rewrite Hhash, Hconf.
  assert (Hnow : isTxConfirmed (addReceipt h s) = true).
  { unfold isTxConfirmed. cbn [txHash addReceipt receipts]. rewrite Hhash.
    cbn [existsb]. rewrite (proj2 (strEqb_eq h h) eq_refl). reflexivity. }
  assert (Hdeps : depsChanged s (addReceipt h s) = true).
  { unfold depsChanged. rewrite Hconf, Hnow. reflexivity. }
  assert (Heff : confirmationEffect (addReceipt h s)
                 = setTxHash None (setCurrentTxIndex 0 (setPendingTransaction None
                     (addMessage system (TransactionConfirmed summary) (addReceipt h s))))).
  { unfold confirmationEffect. cbn [pendingTransaction addReceipt].
    rewrite Hplan, Hnow. unfold hasTxHash. cbn [txHash addReceipt]. rewrite Hhash.
    destruct h as [|c h]; [contradiction|]. cbn [andb]. rewrite Hsum.
    cbn [currentTxIndex addReceipt].
    replace (currentTxIndex s + 1 <? length (txPlan plan))%nat with false
      by (symmetry; apply Nat.ltb_ge; lia).
    reflexivity. }
  rewrite render_effect_reset by (rewrite ?Heff; reflexivity || assumption).
  rewrite Heff. repeat split; reflexivity.
Qed.

End Handlers.

(** ** Claims about the chat component *)

Section Executor.
Import ChatTab Samples.

(** C1, at the input where the code leaves the claim.  A plan of two steps
    is offered; the user approves, the wallet returns the hash of step 0, and
    the approve button is enabled again: a second click sends step 1 although
    no receipt for step 0 has arrived and no confirmation has been
    reported. *)
Theorem second_step_sent_unconfirmed :
  let awaiting := run planReceived [ClickApprove; WalletHash (lit "0xaaa1")] in
  let s := step awaiting ClickApprove in
  pendingTransaction planReceived = Some twoStepPlan
  /\ previewEnabled planReceived = true
  /\ previewEnabled awaiting = true
  /\ isTxConfirmed awaiting = false
  /\ filter isSendTransaction (log s)
     = [ SendTransaction (to approveStep) (data approveStep) 0;
         SendTransaction (to supplyStep) (data supplyStep) 0 ]
  /\ filter isConfirmation (log s) = []
  /\ receipts s = [].
Proof.
  vm_compute. repeat split; reflexivity.
Qed.

(** C7, at the input where the code leaves the claim.  With the two-step
    plan, after the approval and the hash of step 0 the index is already 1,
    so the receipt of step 0 is taken for the end of the plan: the slot is
    emptied and the index and the hash are reset, with no rejection and no
    failed submission, and step 1 was never sent. *)
Theorem plan_dropped_after_first_receipt :
  let s := run planReceived [ClickApprove; WalletHash (lit "0xaaa1"); ReceiptObserved] in
  length (txPlan twoStepPlan) = 2%nat
  /\ idle s = true
  /\ txHash s = None
  /\ filter isSendTransaction (log s)
     = [ SendTransaction (to approveStep) (data approveStep) 0 ]
  /\ filter isCancelOrFailure (log s) = []
  /\ filter isConfirmation (log s)
     = [ AddMessage system (TransactionConfirmed (lit "Supply 0.1 USDC")) ].
Proof.
  vm_compute. repeat split; reflexivity.
Qed.



End Executor.

(** * Further properties of the codec *)

Section CodecShape.

Lemma split_without (sep : ascii) (s : jsstring) :
  ~ In sep s -> split sep s = [s].
Proof.
  induction s as [|c s IH]; intros H; [reflexivity|].
  cbn [split]. destruct (Ascii.eqb c sep) eqn:E.
  - apply Ascii.eqb_eq in E. subst c. exfalso. apply H. left. reflexivity.
  - rewrite IH; [reflexivity|]. intros Hin. apply H. right. exact Hin.
Qed.

Lemma split_at (sep : ascii) (w r : jsstring) :
  ~ In sep w -> split sep (w ++ sep :: r) = w :: split sep r.
Proof.
  induction w as [|c w IH]; intros H.
  - cbn [app split]. rewrite Ascii.eqb_refl. reflexivity.
  - cbn [app split]. destruct (Ascii.eqb c sep) eqn:E.
    + apply Ascii.eqb_eq in E. subst c. exfalso. apply H. left. reflexivity.
    + rewrite IH; [reflexivity|]. intros Hin. apply H. right. exact Hin.
Qed.

(** No part of a split holds the separator. *)
Lemma split_parts_without (sep : ascii) (s p : jsstring) :
  In p (split sep s) -> ~ In sep p.
Proof.
  revert p. induction s as [|c s IH]; intros p Hp.
  - cbn in Hp. destruct Hp as [<-|[]]. intros [].
  - cbn [split] in Hp. destruct (Ascii.eqb c sep) eqn:E.
    + destruct Hp as [<-|Hp]; [intros []|]. apply IH. exact Hp.
    + pose proof (split_nonempty sep s) as Hne.
      destruct (split sep s) as [|h t]; [contradiction|].
      destruct Hp as [<-|Hp].
      * intros [Hc|Hin].
        -- subst c. rewrite Ascii.eqb_refl in E. discriminate.
        -- revert Hin. apply IH. left. reflexivity.
      * apply IH. right. exact Hp.
Qed.

Lemma digits_without_point (s : jsstring) :
  forallb isDigit s = true -> ~ In "."%char s.
Proof.
  intros H Hin. rewrite forallb_forall in H. specialize (H _ Hin). discriminate.
Qed.

(** The parts of an amount written as integer part, point and fraction. *)
Lemma parts_of_pointed (w f : jsstring) :
  ~ In "."%char w -> ~ In "."%char f ->
  integerPart (w ++ "."%char :: f) = w
  /\ fractionalPart (w ++ "."%char :: f) = Some f
  /\ fractionOrEmpty (w ++ "."%char :: f) = f.
Proof.
  intros Hw Hf. unfold fractionOrEmpty, integerPart, fractionalPart.
  rewrite split_at, split_without by assumption. cbn. tauto.
Qed.

Lemma parts_of_plain (w : jsstring) :
  ~ In "."%char w ->
  integerPart w = w /\ fractionalPart w = None /\ fractionOrEmpty w = [].
Proof.
  intros Hw. unfold fractionOrEmpty, integerPart, fractionalPart.
  rewrite split_without by assumption. cbn. tauto.
Qed.

Lemma isValidTokenAmount_spec (amount : jsstring) (d : nat) :
  isValidTokenAmount amount d = validAmount amount && fractionFits amount d.
Proof.
  unfold isValidTokenAmount, validAmount, fractionFits, fractionOrEmpty,
    integerPart, fractionalPart.
  pose proof (split_nonempty "."%char amount) as Hne.
  destruct (split "."%char amount) as [|w [|f rest]]; [contradiction| |];
    cbn [nth nth_error length].
  - destruct (matchesDigits w); reflexivity.
  - destruct (matchesDigits w); [|reflexivity].
    destruct (matchesDigits f); cbn [negb andb]; [|reflexivity].
    rewrite Nat.leb_antisym. destruct (d <? length f)%nat; reflexivity.
Qed.

Lemma canonicalDigits_length (s : jsstring) (d : nat) :
  canonicalDigits s = true -> digitsValue s < 10 ^ Z.of_nat d -> (0 < d)%nat ->
  (length s <= d)%nat.
Proof.
  intros Hcan Hv Hd.
  destruct s as [|c [|x r]]; [discriminate|cbn; lia|].
  cbn [canonicalDigits] in Hcan.
  apply andb_true_iff in Hcan. destruct Hcan as [Hcan Hr].
  apply andb_true_iff in Hcan. destruct Hcan as [Hc Hz].
  apply negb_true_iff in Hz.
  pose proof (zero_char_value c Hc Hz) as Hc1.
  pose proof (digitsValue_range _ Hr) as Hrr.
  rewrite digitsValue_cons in Hv.
  destruct (Nat.le_gt_cases (length (c :: x :: r)) d) as [|Hgt]; [assumption|exfalso].
  assert (Hpow : 10 ^ Z.of_nat d <= 10 ^ Z.of_nat (length (x :: r))).
  { apply Z.pow_le_mono_r; [lia|]. cbn [length] in *. lia. }
  nia.
Qed.

Lemma dropLeadingZeros_head (t : jsstring) :
  match dropLeadingZeros t with
  | c :: _ => Ascii.eqb c "0"%char = false
  | [] => True
  end.
Proof.
  induction t as [|c t IH]; [exact I|].
  cbn [dropLeadingZeros]. destruct (Ascii.eqb c "0"%char) eqn:E; [exact IH | exact E].
Qed.

(** Stripping removes a run of zeros at the end, and all of it. *)
Lemma stripTrailingZeros_split (t : jsstring) :
  exists k, t = stripTrailingZeros t ++ zeros k
            /\ endsInZero (stripTrailingZeros t) = false.
Proof.
  unfold stripTrailingZeros, endsInZero.
  destruct (dropLeadingZeros_split (rev t)) as (Hsplit & _ & _).
  exists (length (rev t) - length (dropLeadingZeros (rev t)))%nat. split.
  - rewrite <- (rev_involutive t) at 1. rewrite Hsplit at 1.
    rewrite rev_app_distr, rev_zeros. reflexivity.
  - rewrite rev_involutive.
    pose proof (dropLeadingZeros_head (rev t)) as Hh.
    destruct (dropLeadingZeros (rev t)); [reflexivity | exact Hh].
Qed.

(** The text [formatTokenAmount] writes for a non-negative amount. *)
Lemma formatTokenAmount_shape (n : Z) (d : nat) :
  0 <= n -> (d <= 22)%nat ->
  exists out,
    formatTokenAmount (AmountBigInt n) d = Ok out
    /\ integerPart out = bigintToString (n / 10 ^ Z.of_nat d)
    /\ (fractionalPart out = None \/
        exists f, fractionalPart out = Some f /\ matchesDigits f = true)
    /\ isDisplayAmount out = true
    /\ forallb isDigit (fractionOrEmpty out) = true
    /\ (length (fractionOrEmpty out) <= d)%nat
    /\ endsInZero (fractionOrEmpty out) = false
    /\ digitsValue (slice0 (padEnd0 (fractionOrEmpty out) d) d) = n mod 10 ^ Z.of_nat d
    /\ digitsValue (fractionOrEmpty out) * 10 ^ Z.of_nat (d - length (fractionOrEmpty out))
       = n mod 10 ^ Z.of_nat d.
Proof.
  intros Hn Hd.
  pose proof (pow10_pos d) as Hp.
  set (P := 10 ^ Z.of_nat d) in *.
  assert (Hq : 0 <= n / P) by (apply Z.div_pos; lia).
  pose proof (Z.mod_pos_bound n P Hp) as Hr.
  destruct (bigintToString_sound _ Hq) as [Hwcan Hwval].
  pose proof (canonicalDigits_forallb _ Hwcan) as Hwd.
  pose proof (digits_without_point _ Hwd) as Hwp.
  rewrite formatTokenAmount_exact by assumption. fold P.
  destruct (n mod P =? 0) eqn:E0.
  - apply Z.eqb_eq in E0. eexists. split; [reflexivity|].
    destruct (parts_of_plain _ Hwp) as (Hi & Hf & Hfe).
    rewrite Hi, Hfe. split; [reflexivity|]. split; [left; exact Hf|].
    split.
    { unfold isDisplayAmount. rewrite split_without by assumption.
      apply matchesDigits_forallb. split; [|assumption].
      intros E. rewrite E in Hwcan. discriminate. }
    split; [reflexivity|]. split; [cbn; lia|]. split; [reflexivity|].
    split.
    + unfold slice0, padEnd0. cbn [app length]. rewrite Nat.sub_0_r.
      rewrite firstn_all2 by (rewrite length_zeros; lia).
      rewrite digitsValue_zeros. lia.
    + cbn. lia.
  - apply Z.eqb_neq in E0.
    assert (Hdpos : (0 < d)%nat).
    { destruct d; [|lia]. unfold P in E0. change (10 ^ Z.of_nat 0) with 1 in E0.
      rewrite Z.mod_1_r in E0. contradiction. }
    assert (Hr0 : 0 <= n mod P) by lia.
    destruct (bigintToString_sound _ Hr0) as [Hrcan Hrval].
    pose proof (canonicalDigits_forallb _ Hrcan) as Hrd.
    assert (Hrlen : (length (bigintToString (n mod P)) <= d)%nat).
    { apply canonicalDigits_length; try assumption. rewrite Hrval. apply Hr. }
    set (t := padStart0 (bigintToString (n mod P)) d).
    assert (Htd : forallb isDigit t = true)
      by (unfold t, padStart0; rewrite forallb_app, forallb_zeros, Hrd; reflexivity).
    assert (Htlen : length t = d)
      by (unfold t, padStart0; rewrite length_app, length_zeros; lia).
    assert (Htval : digitsValue t = n mod P).
    { unfold t, padStart0. rewrite digitsValue_app, digitsValue_zeros. lia. }
    destruct (stripTrailingZeros_split t) as (k & Hsplit & Hend).
    set (f := stripTrailingZeros t) in *.
    assert (Hfd : forallb isDigit f = true).
    { rewrite Hsplit, forallb_app in Htd. apply andb_true_iff in Htd. tauto. }
    assert (Hlen : (length f + k = d)%nat).
    { rewrite <- Htlen, Hsplit at 1. rewrite length_app, length_zeros. reflexivity. }
    assert (Hfne : f <> []).
    { intros E. rewrite E in Hsplit. cbn [app] in Hsplit.
      rewrite Hsplit, digitsValue_zeros in Htval. lia. }
    pose proof (digits_without_point _ Hfd) as Hfp.
    eexists. split; [reflexivity|].
    destruct (parts_of_pointed _ _ Hwp Hfp) as (Hi & Hf & Hfe).
    rewrite Hi, Hfe, Hf.
    assert (Hfm : matchesDigits f = true)
      by (apply matchesDigits_forallb; split; assumption).
    split; [reflexivity|]. split; [right; exists f; split; [reflexivity|assumption]|].
    split.
    { unfold isDisplayAmount. rewrite split_at, split_without by assumption.
      rewrite Hfm, andb_true_r.
      apply matchesDigits_forallb. split; [|assumption].
      intros E. rewrite E in Hwcan. discriminate. }
    split; [assumption|]. split; [lia|]. split; [assumption|].
    replace (d - length f)%nat with k by lia.
    split.
    + unfold slice0, padEnd0. replace (d - length f)%nat with k by lia.
      rewrite <- Hsplit, firstn_all2 by lia. exact Htval.
    + rewrite <- Htval, Hsplit at 1.
      rewrite digitsValue_app, digitsValue_zeros, length_zeros. lia.
Qed.

End CodecShape.

Section CodecExtras.

(** X1.  For a non-negative amount and up to 22 decimals, [formatTokenAmount]
    returns a display amount in canonical form: no leading zero in the
    integer part, a fractional part of at most [decimals] digits that does
    not end in a zero; [isValidTokenAmount] accepts it at the same
    decimals. *)
Theorem formatTokenAmount_wellformed (n : Z) (d : nat) :
  0 <= n -> (d <= 22)%nat ->
  exists out,
    formatTokenAmount (AmountBigInt n) d = Ok out
    /\ isDisplayAmount out = true
    /\ noLeadingZero out = true
    /\ fractionFits out d = true
    /\ noTrailingZero out = true
    /\ isValidTokenAmount out d = true.
Proof.
  intros Hn Hd.
  destruct (formatTokenAmount_shape n d Hn Hd)
    as (out & Hout & Hint & Hfrac & Hdisp & Hfd & Hlen & Hend & _).
  assert (Hq : 0 <= n / 10 ^ Z.of_nat d) by (apply Z.div_pos; [lia | apply pow10_pos]).
  destruct (bigintToString_sound _ Hq) as [Hcan _].
  assert (Hfit : fractionFits out d = true) by (apply Nat.leb_le; exact Hlen).
  exists out. repeat split; try assumption.
  - unfold noLeadingZero. rewrite Hint. exact Hcan.
  - unfold noTrailingZero. rewrite Hend. reflexivity.
  - rewrite isValidTokenAmount_spec, Hfit, andb_true_r.
    unfold validAmount. rewrite Hint.
    replace (matchesDigits (bigintToString (n / 10 ^ Z.of_nat d))) with true.
    + destruct Hfrac as [->|(f & -> & Hf)]; [reflexivity | exact Hf].
    + symmetry. apply matchesDigits_forallb. split.
      * intros E. rewrite E in Hcan. discriminate.
      * apply canonicalDigits_forallb. exact Hcan.
Qed.

Lemma formatTokenAmount_wellformed_witness :
  exists out,
    formatTokenAmount (AmountBigInt 1500000) 6 = Ok out
    /\ isDisplayAmount out = true
    /\ noLeadingZero out = true
    /\ fractionFits out 6 = true
    /\ noTrailingZero out = true
    /\ isValidTokenAmount out 6 = true.
Proof.
  apply (formatTokenAmount_wellformed 1500000 6); lia.
Defined.

(** X2.  Parsing what [formatTokenAmount] wrote gives the amount back, for
    every non-negative amount and up to 22 decimals; formatting it once more
    gives the same text. *)
Theorem parseTokenAmount_formatTokenAmount (n : Z) (d : nat) :
  0 <= n -> (d <= 22)%nat ->
  bind (formatTokenAmount (AmountBigInt n) d) (fun out => parseTokenAmount out d) = Ok n
  /\ bind (formatTokenAmount (AmountBigInt n) d) (fun out => roundTrip out d)
     = formatTokenAmount (AmountBigInt n) d.
Proof.
  intros Hn Hd.
  destruct (formatTokenAmount_shape n d Hn Hd)
    as (out & Hout & Hint & _ & _ & Hfd & _ & _ & Hval & _).
  assert (Hq : 0 <= n / 10 ^ Z.of_nat d) by (apply Z.div_pos; [lia | apply pow10_pos]).
  destruct (bigintToString_sound _ Hq) as [Hcan Hwval].
  assert (Hparse : parseTokenAmount out d = Ok n).
  { rewrite parseTokenAmount_digits.
    - rewrite Hint, Hwval, Hval. f_equal.
      pose proof (Z.div_mod n (10 ^ Z.of_nat d)) as Hdm.
      pose proof (pow10_pos d). lia.
    - rewrite Hint. apply canonicalDigits_forallb. exact Hcan.
    - exact Hfd. }
  rewrite Hout. cbn [bind]. split; [exact Hparse|].
  unfold roundTrip. rewrite Hparse. cbn [bind]. exact Hout.
Qed.

Lemma parseTokenAmount_formatTokenAmount_witness :
  bind (formatTokenAmount (AmountBigInt 1234500000000000000) 18)
       (fun out => parseTokenAmount out 18) = Ok 1234500000000000000.
Proof.
  apply (parseTokenAmount_formatTokenAmount 1234500000000000000 18); lia.
Defined.

(** X3.  An amount that [isValidTokenAmount] accepts is parsed without an
    exception and without loss: the result times ten to the number of
    fractional digits is the amount's digits times ten to the decimals, and
    the fraction never carries into the integer part. *)
Theorem validated_amount_exact (amount : jsstring) (d : nat) :
  isValidTokenAmount amount d = true ->
  exists base,
    parseTokenAmount amount d = Ok base
    /\ base * 10 ^ Z.of_nat (length (fractionOrEmpty amount))
       = digitsValue (integerPart amount ++ fractionOrEmpty amount) * 10 ^ Z.of_nat d
    /\ digitsValue (integerPart amount) * 10 ^ Z.of_nat d <= base
       < (digitsValue (integerPart amount) + 1) * 10 ^ Z.of_nat d.
Proof.
  intros H. rewrite isValidTokenAmount_spec in H.
  apply andb_true_iff in H. destruct H as [Hvalid Hfit].
  apply Nat.leb_le in Hfit.
  destruct (validAmount_parts amount Hvalid) as (Hw & _ & Hf).
  set (w := integerPart amount) in *. set (f := fractionOrEmpty amount) in *.
  eexists. split; [apply parseTokenAmount_digits; assumption|].
  fold w f. rewrite paddedFractional_value by assumption.
  pose proof (pow10_pos (length f)) as Hpf.
  pose proof (pow10_pos (d - length f)) as Hpk.
  pose proof (digitsValue_range _ Hf) as Hfr.
  assert (Hd : 10 ^ Z.of_nat d = 10 ^ Z.of_nat (d - length f) * 10 ^ Z.of_nat (length f)).
  { rewrite <- pow10_split. f_equal. lia. }
  assert (Hfrac : digitsValue f * 10 ^ Z.of_nat d / 10 ^ Z.of_nat (length f)
                  = digitsValue f * 10 ^ Z.of_nat (d - length f)).
  { rewrite Hd, Z.mul_assoc, Z.div_mul by lia. reflexivity. }
  rewrite Hfrac, digitsValue_app. split; [rewrite Hd; ring|].
  rewrite Hd. nia.
Qed.

Lemma validated_amount_exact_witness :
  isValidTokenAmount (lit "12.5") 6 = true
  /\ exists base, parseTokenAmount (lit "12.5") 6 = Ok base
                  /\ base * 10 ^ 1 = 125 * 10 ^ 6
                  /\ 12 * 10 ^ 6 <= base < 13 * 10 ^ 6.
Proof.
  split; [reflexivity|].
  exact (validated_amount_exact (lit "12.5") 6 eq_refl).
Defined.

(** X4.  An amount valid at some decimals stays valid at more decimals; at
    zero decimals exactly the non-empty runs of digits are valid, so an
    amount with a decimal point never is; the empty string is never valid. *)
Theorem isValidTokenAmount_decimals (amount : jsstring) (d : nat) :
  (forall d', (d <= d')%nat -> isValidTokenAmount amount d = true ->
              isValidTokenAmount amount d' = true)
  /\ isValidTokenAmount amount 0 = matchesDigits amount
  /\ isValidTokenAmount [] d = false.
Proof.
  split; [|split; [|reflexivity]].
  - intros d' Hle. rewrite !isValidTokenAmount_spec.
    intros H. apply andb_true_iff in H. destruct H as [-> Hfit].
    unfold fractionFits in *. apply Nat.leb_le in Hfit.
    cbn [andb]. apply Nat.leb_le. lia.
  - destruct (in_dec ascii_dec "."%char amount) as [Hin|Hnot].
    + replace (matchesDigits amount) with false.
      2:{ symmetry. destruct (matchesDigits amount) eqn:E; [|reflexivity].
          apply matchesDigits_forallb in E. destruct E as [_ E].
          exfalso. revert Hin. apply digits_without_point. exact E. }
      unfold isValidTokenAmount.
      destruct (split "."%char amount) as [|w [|f rest]] eqn:Es; [reflexivity| |].
      * apply split_one in Es. subst w.
        destruct (matchesDigits amount) eqn:E; [|reflexivity].
        apply matchesDigits_forallb in E. destruct E as [_ E].
        exfalso. revert Hin. apply digits_without_point. exact E.
      * destruct (matchesDigits w); [|reflexivity]. cbn [negb].
        destruct (matchesDigits f) eqn:Ef; [|reflexivity]. cbn [negb].
        apply matchesDigits_forallb in Ef. destruct Ef as [Hne _].
        destruct f; [contradiction | reflexivity].
    + unfold isValidTokenAmount. rewrite split_without by assumption.
      destruct (matchesDigits amount); reflexivity.
Qed.

(** X5.  Only the text before the second decimal point is read: an amount
    with a fractional part is parsed, and validated, like its integer part,
    a point and that fractional part. *)
Theorem later_parts_ignored (amount f : jsstring) (d : nat) :
  fractionalPart amount = Some f ->
  parseTokenAmount amount d = parseTokenAmount (integerPart amount ++ "."%char :: f) d
  /\ isValidTokenAmount amount d
     = isValidTokenAmount (integerPart amount ++ "."%char :: f) d.
Proof.
  unfold fractionalPart, integerPart. intros H.
  destruct (split "."%char amount) as [|w [|f' rest]] eqn:Es; try discriminate.
  cbn in H. injection H as ->. cbn [nth].
  assert (Hw : ~ In "."%char w)
    by (apply (split_parts_without "."%char amount); rewrite Es; left; reflexivity).
  assert (Hf : ~ In "."%char f)
    by (apply (split_parts_without "."%char amount); rewrite Es; right; left; reflexivity).
  unfold parseTokenAmount, isValidTokenAmount.
  rewrite Es, split_at, split_without by assumption.
  split; reflexivity.
Qed.

Lemma later_parts_ignored_witness :
  fractionalPart (lit "1.25.9x") = Some (lit "25")
  /\ parseTokenAmount (lit "1.25.9x") 6 = parseTokenAmount (lit "1.25") 6
  /\ isValidTokenAmount (lit "1.25.9x") 6 = isValidTokenAmount (lit "1.25") 6.
Proof.
  split; [reflexivity|].
  exact (later_parts_ignored (lit "1.25.9x") (lit "25") 6 eq_refl).
Defined.

End CodecExtras.

(** * Further properties of the normalization *)

Section Normalization.


(** X6.  [formatTransactionData] touches nothing but the amount: the token
    name, the action, the chain identifier and the plan come back as they
    went in.  It throws only a SyntaxError, and only for an amount that
    [parseFloat] reads above 1000000 while [BigInt] rejects its integer
    part. *)
Theorem formatTransactionData_frame (data : TransactionData) :
  match formatTransactionData data with
  | Ok out =>
      tokenName out = tokenName data
      /\ action out = action data
      /\ TokenUtils.chainId out = TokenUtils.chainId data
      /\ txPlan out = txPlan data
  | Throw e =>
      e = SyntaxError
      /\ gtInteger (parseFloat (amount data)) 1000000 = true
      /\ BigIntOfString (integerPart (amount data)) = Throw SyntaxError
  end.
Proof.
  unfold formatTransactionData. fold (integerPart (amount data)).
  destruct (gtInteger (parseFloat (amount data)) 1000000); cbn [bind].
  - destruct (BigIntOfString (integerPart (amount data))) as [n|e] eqn:En; cbn [bind].
    + destruct (formatTokenAmount_total n _ (tokenDecimals_small (tokenName data)))
        as (out & ->).
      cbn [bind]. repeat split; reflexivity.
    + apply BigIntOfString_error in En. subst e. repeat split; reflexivity.
  - repeat split; reflexivity.
Qed.

Lemma spanDigits_stop (w : jsstring) (y : ascii) (rest : jsstring) :
  forallb isDigit w = true -> isDigit y = false ->
  spanDigits (w ++ y :: rest) = (w, y :: rest).
Proof.
  intros Hw Hy. induction w as [|c w IH].
  - cbn [app spanDigits]. rewrite Hy. reflexivity.
  - cbn [forallb] in Hw. apply andb_true_iff in Hw. destruct Hw as [Hc Hw].
    cbn [app spanDigits]. rewrite Hc, IH by assumption. reflexivity.
Qed.

(** X7.  An amount in scientific notation that stands for more than 1000000
    makes [formatTransactionData], and with it [createTransactionSummary],
    throw a SyntaxError: [parseFloat] reads the exponent, [BigInt] does
    not. *)
Theorem scientific_amount_throws (data : TransactionData) (c : ascii) (r x : jsstring) :
  amount data = c :: r ++ "e"%char :: x ->
  isDigit c = true -> Ascii.eqb c "0"%char = false ->
  forallb isDigit r = true -> matchesDigits x = true ->
  1000001 <= digitsValue (c :: r) * 10 ^ digitsValue x ->
  formatTransactionData data = Throw SyntaxError
  /\ createTransactionSummary data = Throw SyntaxError.
Proof.
  intros Hamount Hc Hz Hr Hx Hbig.
  apply matchesDigits_forallb in Hx. destruct Hx as [Hxne Hx].
  assert (Hwd : forallb isDigit (c :: r) = true) by (cbn [forallb]; rewrite Hc; exact Hr).
  pose proof (digitsValue_range _ Hwd) as Hwr.
  pose proof (digitsValue_range _ Hx) as Hxr.
  assert (Hfloat : gtInteger (parseFloat (amount data)) 1000000 = true).
  { rewrite Hamount. unfold parseFloat. rewrite trimStart_digit by assumption.
    rewrite !(isDigit_eqb_false c) by (assumption || reflexivity).
    unfold unsignedDecimalLiteral. rewrite unsigned_digit_start by assumption.
    change (c :: r ++ "e"%char :: x) with ((c :: r) ++ "e"%char :: x).
    rewrite spanDigits_stop by (assumption || reflexivity).
    cbn [Ascii.eqb Bool.eqb].
    replace (exponentPart ("e"%char :: x)) with (digitsValue x).
    2:{ cbn [exponentPart]. cbn [Ascii.eqb Bool.eqb orb].
        destruct x as [|sg x']; [contradiction|].
        pose proof Hx as Hx'. cbn [forallb] in Hx'.
        apply andb_true_iff in Hx'. destruct Hx' as [Hsg _].
        rewrite !(isDigit_eqb_false sg) by (assumption || reflexivity).
        rewrite spanDigits_all by assumption. reflexivity. }
    unfold numberOfDecimal.
    assert (Hpos : 0 < 10 ^ digitsValue x) by (apply Z.pow_pos_nonneg; lia).
    replace (digitsValue (c :: r) =? 0) with false by (symmetry; apply Z.eqb_neq; nia).
    replace (0 <=? digitsValue x) with true by (symmetry; apply Z.leb_le; lia).
    apply nearestDouble_gt; lia. }
  assert (Hpart : integerPart (amount data) = c :: r ++ "e"%char :: x).
  { rewrite Hamount. unfold integerPart. rewrite split_without; [reflexivity|].
    intros [E|Hin].
    - subst c. discriminate Hc.
    - apply in_app_or in Hin. destruct Hin as [Hin|[E|Hin]].
      + revert Hin. apply digits_without_point. exact Hr.
      + discriminate E.
      + revert Hin. apply digits_without_point. exact Hx. }
  assert (Hbigint : BigIntOfString (integerPart (amount data)) = Throw SyntaxError).
  { apply (BigIntOfString_rejects _ c "e"%char (r ++ "e"%char :: x)); try assumption.
    - apply in_or_app. right. left. reflexivity.
    - reflexivity.
    - reflexivity. }
  assert (Hfmt : formatTransactionData data = Throw SyntaxError).
  { unfold formatTransactionData. fold (integerPart (amount data)).
    rewrite Hfloat, Hbigint. reflexivity. }
  split; [exact Hfmt|].
  unfold createTransactionSummary. rewrite Hfmt. reflexivity.
Qed.

Lemma scientific_amount_throws_witness :
  formatTransactionData (supplyOf "USDC" "25e5") = Throw SyntaxError
  /\ createTransactionSummary (supplyOf "USDC" "25e5") = Throw SyntaxError.
Proof.
  apply (scientific_amount_throws (supplyOf "USDC" "25e5") "2"%char (lit "5") (lit "5"));
    try reflexivity.
  vm_compute. discriminate.
Defined.

(** X8.  Normalizing twice.  For a display amount with integer part W and a
    token of d decimals: when W is at most 1000000 * 10^d the result of
    [formatTransactionData] is left unchanged by a second application; when
    W is at least 1000001 * 10^d the second application converts again, now
    the amount W / 10^d. *)
Theorem formatTransactionData_twice (data : TransactionData) :
  isDisplayAmount (amount data) = true ->
  exists once,
    formatTransactionData data = Ok once
    /\ (digitsValue (integerPart (amount data))
        <= 1000000 * 10 ^ Z.of_nat (decimals (getTokenInfo (tokenName data))) ->
        formatTransactionData once = Ok once)
    /\ (1000001 * 10 ^ Z.of_nat (decimals (getTokenInfo (tokenName data)))
        <= digitsValue (integerPart (amount data)) ->
        exists again,
          formatTokenAmount
            (AmountBigInt (digitsValue (integerPart (amount data))
                           / 10 ^ Z.of_nat (decimals (getTokenInfo (tokenName data)))))
            (decimals (getTokenInfo (tokenName data))) = Ok again
          /\ formatTransactionData once = Ok (withAmount once again)).
Proof.
  intros H.
  destruct (formatTransactionData_display data H) as (converted & Hconv & Hfmt).
  set (d := decimals (getTokenInfo (tokenName data))) in *.
  set (W := digitsValue (integerPart (amount data))) in *.
  assert (Hw : forallb isDigit (integerPart (amount data)) = true).
  { destruct (isDisplayAmount_shape _ H) as [(Hx & _ & Hm)|(f & _ & _ & Hm & _)].
    - rewrite <- Hx. apply matchesDigits_forallb in Hm. tauto.
    - apply matchesDigits_forallb in Hm. tauto. }
  pose proof (digitsValue_range _ Hw) as Hwr. fold W in Hwr.
  assert (Hd : (d <= 22)%nat) by apply tokenDecimals_small.
  destruct (formatTokenAmount_shape W d ltac:(lia) Hd)
    as (out & Hout & Hint & _ & Hdisp & Hfd & Hlen & _ & _ & Hfv).
  rewrite Hconv in Hout. injection Hout as <-.
  assert (Hq : 0 <= W / 10 ^ Z.of_nat d) by (apply Z.div_pos; [lia | apply pow10_pos]).
  destruct (bigintToString_sound _ Hq) as [_ Hqval].
  set (f := fractionOrEmpty converted) in *.
  pose proof (pow10_pos d) as Hpd. pose proof (pow10_pos (length f)) as Hpf.
  pose proof (pow10_pos (d - length f)) as Hpk.
  assert (Hsplit : 10 ^ Z.of_nat d = 10 ^ Z.of_nat (length f) * 10 ^ Z.of_nat (d - length f)).
  { rewrite <- pow10_split. f_equal. lia. }
  pose proof (Z.div_mod W (10 ^ Z.of_nat d) ltac:(lia)) as Hdm.
  pose proof (Z.mod_pos_bound W (10 ^ Z.of_nat d) Hpd) as Hmod.
  assert (Hdigits : digitsValue (integerPart converted ++ f)
                    = W / 10 ^ Z.of_nat d * 10 ^ Z.of_nat (length f) + digitsValue f).
  { rewrite digitsValue_app, Hint, Hqval. reflexivity. }
  pose proof (digitsValue_range _ Hfd) as Hfr. fold f in Hfr.
  destruct (gtInteger (parseFloat (amount data)) 1000000) eqn:Egt.
  - (* the first application converts *)
    exists (withAmount data converted). split; [exact Hfmt|].
    assert (Hdisp' : isDisplayAmount (amount (withAmount data converted)) = true)
      by exact Hdisp.
    destruct (formatTransactionData_display _ Hdisp') as (again & Hagain & Hfmt2).
    cbn [withAmount amount tokenName] in Hagain, Hfmt2.
    fold d in Hagain. rewrite Hint, Hqval in Hagain.
    rewrite (parseFloat_display _ Hdisp) in Hfmt2. fold f in Hfmt2.
    split.
    + intros Hsmall. rewrite Hfmt2.
      rewrite numberOfDecimal_le; [reflexivity| | |].
      * rewrite Hdigits. nia.
      * cbn. lia.
      * rewrite Hdigits.
        apply Z.mul_le_mono_pos_r with (p := 10 ^ Z.of_nat (d - length f)); [lia|].
        nia.
    + intros Hlarge. exists again. split; [exact Hagain|].
      rewrite Hfmt2.
      rewrite numberOfDecimal_gt; [reflexivity| |].
      * cbn. lia.
      * rewrite Hdigits.
        assert (1000001 <= W / 10 ^ Z.of_nat d) by (apply Z.div_le_lower_bound; lia).
        nia.
  - (* the first application leaves the amount *)
    exists data. split; [exact Hfmt|]. split.
    + intros _. apply formatTransactionData_small. exact Egt.
    + intros Hlarge. exfalso.
      rewrite (parseFloat_display _ H) in Egt.
      rewrite numberOfDecimal_gt in Egt; [discriminate| |].
      * cbn. lia.
      * rewrite digitsValue_app. fold W.
        pose proof (pow10_pos (length (fractionOrEmpty (amount data)))).
        assert (forallb isDigit (fractionOrEmpty (amount data)) = true) as Hfd0.
        { destruct (isDisplayAmount_shape _ H) as [(_ & Hnone & _)|(f0 & Hsome & Hf0 & _)].
          - unfold fractionOrEmpty. rewrite Hnone. reflexivity.
          - unfold fractionOrEmpty. rewrite Hsome.
            apply matchesDigits_forallb in Hf0. tauto. }
        pose proof (digitsValue_range _ Hfd0). nia.
Qed.

Lemma formatTransactionData_twice_witness :
  isDisplayAmount (amount (supplyOf "USDC" "2000000000000")) = true
  /\ formatTransactionData (supplyOf "USDC" "2000000000000")
     = Ok (supplyOf "USDC" "2000000")
  /\ formatTransactionData (supplyOf "USDC" "2000000") = Ok (supplyOf "USDC" "2").
Proof.
  split; [reflexivity|].
  destruct (formatTransactionData_twice (supplyOf "USDC" "2000000000000") eq_refl)
    as (once & Honce & _ & Hlarge).
  destruct (Hlarge ltac:(vm_compute; discriminate)) as (again & Hagain & Htwice).
  assert (E : once = supplyOf "USDC" "2000000")
    by (vm_compute in Honce; injection Honce as <-; reflexivity).
  subst once. split; [reflexivity|].
  rewrite Htwice. vm_compute in Hagain. injection Hagain as <-. reflexivity.
Defined.

End Normalization.

(** * Negative amounts *)

Section Negative.

Lemma bigintToString_negative (n : Z) :
  n < 0 ->
  exists digits, bigintToString n = "-"%char :: digits
                 /\ forallb isDigit digits = true.
Proof.
  intros H. unfold bigintToString.
  replace (n <? 0) with true by (symmetry; apply Z.ltb_lt; lia).
  eexists. split; [reflexivity|].
  apply canonicalDigits_forallb. apply natDigits_sound.
  - split; [lia | apply digitFuel_enough; lia].
  - unfold digitFuel. lia.
Qed.

Lemma bigintToString_without_point (n : Z) : ~ In "."%char (bigintToString n).
Proof.
  destruct (Z_lt_ge_dec n 0) as [Hneg|Hpos].
  - destruct (bigintToString_negative n Hneg) as (digits & -> & Hd).
    intros [E|Hin]; [discriminate E|].
    revert Hin. apply digits_without_point. exact Hd.
  - apply digits_without_point. apply canonicalDigits_forallb.
    apply bigintToString_sound. lia.
Qed.

Lemma stripTrailingZeros_keeps (t : jsstring) (x : ascii) :
  In x t -> x <> "0"%char -> In x (stripTrailingZeros t).
Proof.
  intros Hin Hx. destruct (stripTrailingZeros_split t) as (k & Hsplit & _).
  rewrite Hsplit in Hin. apply in_app_or in Hin.
  destruct Hin as [Hin|Hin]; [exact Hin|].
  apply repeat_spec in Hin. contradiction.
Qed.

Lemma stripTrailingZeros_subset (t : jsstring) (x : ascii) :
  In x (stripTrailingZeros t) -> In x t.
Proof.
  intros Hin. destruct (stripTrailingZeros_split t) as (k & Hsplit & _).
  rewrite Hsplit. apply in_or_app. left. exact Hin.
Qed.

(** X9.  For a negative amount that is not a whole number of tokens, up to
    22 decimals, [formatTokenAmount] does not throw: it writes the minus sign
    of the remainder inside the fractional part, so that
    [isValidTokenAmount] rejects the result at any decimals. *)
Theorem formatTokenAmount_negative (n : Z) (d : nat) :
  n < 0 -> (d <= 22)%nat -> Z.rem n (10 ^ Z.of_nat d) <> 0 ->
  exists out f,
    formatTokenAmount (AmountBigInt n) d = Ok out
    /\ fractionalPart out = Some f
    /\ In "-"%char f
    /\ forall d', isValidTokenAmount out d' = false.
Proof.
  intros Hn Hd Hrem.
  pose proof (pow10_pos d) as Hp.
  unfold formatTokenAmount. cbn [bind].
  rewrite divisor_exact by assumption. cbn [bind].
  unfold bigintDiv, bigintRem.
  replace (10 ^ Z.of_nat d =? 0) with false by (symmetry; apply Z.eqb_neq; lia).
  cbn [bind].
  replace (Z.rem n (10 ^ Z.of_nat d) =? 0) with false
    by (symmetry; apply Z.eqb_neq; assumption).
  set (r := Z.rem n (10 ^ Z.of_nat d)) in *.
  assert (Hr : r < 0).
  { pose proof (Z.rem_nonpos n (10 ^ Z.of_nat d) ltac:(lia) ltac:(lia)). fold r in H. lia. }
  destruct (bigintToString_negative r Hr) as (digits & Hstr & Hdigits).
  set (w := bigintToString (Z.quot n (10 ^ Z.of_nat d))).
  set (t := padStart0 (bigintToString r) d).
  set (f := stripTrailingZeros t).
  assert (Hminus : In "-"%char f).
  { apply stripTrailingZeros_keeps; [|discriminate].
    unfold t, padStart0. rewrite Hstr. apply in_or_app. right. left. reflexivity. }
  assert (Hfp : ~ In "."%char f).
  { intros Hin. apply stripTrailingZeros_subset in Hin.
    unfold t, padStart0 in Hin. apply in_app_or in Hin. destruct Hin as [Hin|Hin].
    - apply repeat_spec in Hin. discriminate Hin.
    - revert Hin. apply bigintToString_without_point. }
  assert (Hwp : ~ In "."%char w) by apply bigintToString_without_point.
  exists (w ++ "."%char :: f), f.
  destruct (parts_of_pointed w f Hwp Hfp) as (_ & Hfrac & _).
  split; [reflexivity|]. split; [exact Hfrac|]. split; [exact Hminus|].
  intros d'. unfold isValidTokenAmount.
  rewrite split_at, split_without by assumption.
  destruct (matchesDigits w); [|reflexivity]. cbn [negb].
  replace (matchesDigits f) with false; [reflexivity|].
  symmetry. destruct (matchesDigits f) eqn:E; [|reflexivity].
  apply matchesDigits_forallb in E. destruct E as [_ E].
  rewrite forallb_forall in E. specialize (E _ Hminus). discriminate E.
Qed.

Lemma formatTokenAmount_negative_witness :
  exists out f,
    formatTokenAmount (AmountBigInt (-5)) 6 = Ok out
    /\ fractionalPart out = Some f
    /\ In "-"%char f
    /\ forall d', isValidTokenAmount out d' = false.
Proof.
  apply (formatTokenAmount_negative (-5) 6); [lia | lia | vm_compute; discriminate].
Defined.

End Negative.

(** * Further properties of the chat component *)

Section SubmitExtras.
Import ChatTab MoreSamples.

(** What [handleAgentOutcome] leaves alone. *)
Lemma handleAgentOutcome_frame (ag : AgentOutcome) (s : State) :
  txHash (handleAgentOutcome ag s) = txHash s
  /\ sending (handleAgentOutcome ag s) = sending s
  /\ receipts (handleAgentOutcome ag s) = receipts s
  /\ isLoading (handleAgentOutcome ag s) = isLoading s
  /\ inputValue (handleAgentOutcome ag s) = inputValue s
  /\ chainId (handleAgentOutcome ag s) = chainId s
  /\ isConnected (handleAgentOutcome ag s) = isConnected s.
Proof.
  unfold handleAgentOutcome.
  destruct ag as [| | |text [[raw| |]|]].
  all: try destruct (formatTransactionData raw) as [formatted|e].
  all: try destruct (createTransactionSummary formatted) as [summary|e'].
  all: repeat split; reflexivity.
Qed.

(** The entries [handleSubmit] adds to the log. *)
Lemma handleSubmit_log (ag : AgentOutcome) (s : State) :
  exists added,
    log (handleSubmit ag s) = log s ++ added
    /\ filter isSendTransaction added = []
    /\ forall i a, In (Fetch i a) added <->
         (isConnected s = true /\ isLoading s = false
          /\ i = trim (inputValue s) /\ i <> [] /\ a = address s).
Proof.
  unfold handleSubmit.
  destruct (trim (inputValue s)) as [|c userMessage] eqn:Etrim.
  { exists []. rewrite app_nil_r. split; [reflexivity|]. split; [reflexivity|].
    intros i a. split; [intros []|]. intros (_ & _ & -> & Hne & _). contradiction. }
  destruct (isLoading s) eqn:Eload.
  { exists []. rewrite app_nil_r. split; [reflexivity|]. split; [reflexivity|].
    intros i a. split; [intros []|]. intros (_ & Hl & _). discriminate Hl. }
  destruct (isConnected s) eqn:Econn; cbn [negb].
  2:{ eexists. split; [reflexivity|]. split; [reflexivity|].
      intros i a. split; [intros [E|[]]; discriminate E|].
      intros (Hc & _). discriminate Hc. }
  assert (Hfetch : forall pre msgs i a,
            forallb isMessage pre = true -> forallb isMessage msgs = true ->
            (In (Fetch i a) (pre ++ Fetch (c :: userMessage) (address s) :: msgs)
             <-> (true = true /\ false = false
                  /\ i = c :: userMessage /\ i <> [] /\ a = address s))).
  { intros pre msgs i a Hpre Hmsgs. split.
    - intros Hin. apply in_app_or in Hin. destruct Hin as [Hin|[E|Hin]].
      + rewrite forallb_forall in Hpre. specialize (Hpre _ Hin). discriminate Hpre.
      + injection E as <- <-. repeat split; try reflexivity. discriminate.
      + rewrite forallb_forall in Hmsgs. specialize (Hmsgs _ Hin). discriminate Hmsgs.
    - intros (_ & _ & -> & _ & ->). apply in_or_app. right. left. reflexivity. }
  unfold issueInstruction.
  destruct (chainId s =? arbitrum_id) eqn:Echain.
  - match goal with
    | |- context [handleAgentOutcome ag ?st] =>
        destruct (handleAgentOutcome_log ag st) as (msgs & Hlog & Hmsgs)
    end.
    cbn [log setIsLoading]. rewrite Hlog.
    cbn [log call setIsLoading setInputValue addMessage address].
    rewrite <- !app_assoc. cbn [app].
    eexists. split; [reflexivity|]. split.
    + cbn [filter isSendTransaction]. apply filter_messages; [reflexivity|assumption].
    + intros i a.
      apply (Hfetch [AddMessage user (UserText (c :: userMessage))] msgs i a
               eq_refl Hmsgs).
  - match goal with
    | |- context [handleAgentOutcome ag ?st] =>
        destruct (handleAgentOutcome_log ag st) as (msgs & Hlog & Hmsgs)
    end.
    cbn [log setIsLoading]. rewrite Hlog.
    cbn [log call setIsLoading setInputValue addMessage address].
    rewrite <- !app_assoc. cbn [app].
    eexists. split; [reflexivity|]. split.
    + cbn [filter isSendTransaction]. apply filter_messages; [reflexivity|assumption].
    + intros i a. split.
      * intros [E|[E|Hin]]; try discriminate E.
        apply (Hfetch [AddMessage system SwitchedToArbitrum;
                       AddMessage user (UserText (c :: userMessage))] msgs i a
                 eq_refl Hmsgs). exact Hin.
      * intros H. right. right.
        apply (Hfetch [AddMessage system SwitchedToArbitrum;
                       AddMessage user (UserText (c :: userMessage))] msgs i a
                 eq_refl Hmsgs). exact H.
Qed.

(** [handleSubmit] adds no transaction to the log. *)
Lemma handleSubmit_sends_nothing (ag : AgentOutcome) (s : State) :
  filter isSendTransaction (log (handleSubmit ag s)) = filter isSendTransaction (log s).
Proof.
  destruct (handleSubmit_log ag s) as (added & -> & Hnone & _).
  rewrite filter_app, Hnone, app_nil_r. reflexivity.
Qed.

(** X10.  [handleSubmit] never sends a transaction and never touches the
    hash, the pending wallet request or the receipts; [isLoading] is, at the
    end, what it was at the start. *)
Theorem handleSubmit_never_sends (ag : AgentOutcome) (s : State) :
  filter isSendTransaction (log (handleSubmit ag s)) = filter isSendTransaction (log s)
  /\ txHash (handleSubmit ag s) = txHash s
  /\ sending (handleSubmit ag s) = sending s
  /\ receipts (handleSubmit ag s) = receipts s
  /\ isLoading (handleSubmit ag s) = isLoading s.
Proof.
  split.
  { apply handleSubmit_sends_nothing. }
  unfold handleSubmit.
  destruct (trim (inputValue s)) as [|c userMessage]; [repeat split; reflexivity|].
  destruct (isLoading s) eqn:Eload; [rewrite ?Eload; repeat split; reflexivity|].
  destruct (isConnected s); cbn [negb]; [|repeat split; assumption || reflexivity].
  unfold issueInstruction.
  destruct (chainId s =? arbitrum_id).
  all: match goal with
       | |- context [handleAgentOutcome ?g ?st] =>
           destruct (handleAgentOutcome_frame g st) as (H1 & H2 & H3 & _)
       end.
  all: cbn [txHash sending receipts isLoading setIsLoading].
  all: rewrite H1, H2, H3; repeat split; reflexivity.
Qed.

(** X11.  The guards of [handleSubmit]: a request to the agent is among
    the entries the handler adds to the log exactly when the trimmed input is
    not empty, no request is loading and the wallet is connected, and it
    carries the trimmed input and the address of the wallet.  The chain is no
    guard: on another chain the handler asks for the switch and sends the
    instruction all the same. *)
Theorem fetch_guarded (ag : AgentOutcome) (s : State) :
  exists added,
    log (handleSubmit ag s) = log s ++ added
    /\ forall i a,
         In (Fetch i a) added
         <-> (isConnected s = true /\ isLoading s = false
              /\ i = trim (inputValue s) /\ i <> [] /\ a = address s).
Proof.
  destruct (handleSubmit_log ag s) as (added & Hlog & _ & Hfetch).
  exists added. split; assumption.
Qed.

Lemma fetch_guarded_witness :
  let s := setWallet true 1 (Some (lit "0x1111")) (setInputValue (lit " go ") initialState) in
  chainId s <> arbitrum_id
  /\ In (Fetch (lit "go") (Some (lit "0x1111"))) (log (handleSubmit NotCompleted s)).
Proof.
  intros s. split; [vm_compute; discriminate|].
  destruct (fetch_guarded NotCompleted s) as (added & Hlog & Hfetch).
  rewrite Hlog. apply in_or_app. right. apply Hfetch.
  vm_compute. repeat split; try reflexivity. discriminate.
Defined.


End SubmitExtras.

Section ExecutorExtras.
Import ChatTab MoreSamples.

(** The effect adds at most one message and sends nothing. *)
Lemma confirmationEffect_frame (s : State) :
  (exists msgs, log (confirmationEffect s) = log s ++ msgs
                /\ forallb isMessage msgs = true)
  /\ sending (confirmationEffect s) = sending s
  /\ receipts (confirmationEffect s) = receipts s.
Proof.
  unfold confirmationEffect.
  destruct (pendingTransaction s) as [plan|].
  2:{ split; [exists []; rewrite app_nil_r; split; reflexivity | split; reflexivity]. }
  destruct (isTxConfirmed s && hasTxHash s).
  2:{ split; [exists []; rewrite app_nil_r; split; reflexivity | split; reflexivity]. }
  destruct (createTransactionSummary plan) as [summary|e].
  2:{ split; [exists []; rewrite app_nil_r; split; reflexivity | split; reflexivity]. }
  destruct (currentTxIndex s + 1 <? length (txPlan plan))%nat;
    (split; [eexists; split; reflexivity | split; reflexivity]).
Qed.

Lemma render_frame (old new : State) :
  filter isSendTransaction (log (render old new)) = filter isSendTransaction (log new)
  /\ sending (render old new) = sending new
  /\ receipts (render old new) = receipts new.
Proof.
  assert (Hone : forall s,
    filter isSendTransaction (log (confirmationEffect s)) = filter isSendTransaction (log s)
    /\ sending (confirmationEffect s) = sending s
    /\ receipts (confirmationEffect s) = receipts s).
  { intros s. destruct (confirmationEffect_frame s) as ((msgs & Hlog & Hm) & Hs & Hr).
    rewrite Hlog, filter_app, (filter_messages _ msgs) by (reflexivity || assumption).
    rewrite app_nil_r. repeat split; assumption. }
  unfold render. destruct (depsChanged old new); [|repeat split; reflexivity].
  destruct (Hone new) as (H1 & H2 & H3).
  destruct (depsChanged new (confirmationEffect new)).
  - destruct (Hone (confirmationEffect new)) as (H4 & H5 & H6).
    rewrite H4, H5, H6. repeat split; assumption.
  - repeat split; assumption.
Qed.

(** While the hash in [txHash] has no receipt the effect does nothing. *)
Lemma render_unconfirmed (old new : State) :
  isTxConfirmed new = false -> render old new = new.
Proof.
  intros H.
  assert (Heff : confirmationEffect new = new).
  { unfold confirmationEffect. rewrite H. destruct (pendingTransaction new); reflexivity. }
  unfold render. rewrite !Heff, depsChanged_same.
  destruct (depsChanged old new); reflexivity.
Qed.

(** What one event can add to the transactions sent. *)
Lemma step_sends (s : State) (ev : Event) :
  filter isSendTransaction (log (step s ev)) = filter isSendTransaction (log s)
  \/ (ev = ClickApprove /\ sending s = None
      /\ exists plan tx v,
           pendingTransaction s = Some plan
           /\ nth_error (txPlan plan) (currentTxIndex s) = Some tx
           /\ BigIntOfString (match value tx with [] => lit "0" | t => t end) = Ok v
           /\ filter isSendTransaction (log (step s ev))
              = filter isSendTransaction (log s) ++ [SendTransaction (to tx) (data tx) v]
           /\ sending (step s ev) = Some (currentTxIndex s, plan)).
Proof.
  unfold step.
  destruct (render_frame s (handle ev s)) as (Hlog & Hsend & _).
  rewrite Hlog, Hsend.
  assert (Hmsg : forall type content st,
            filter isSendTransaction (log (addMessage type content st))
            = filter isSendTransaction (log st)).
  { intros. cbn [log addMessage]. rewrite filter_app. cbn. apply app_nil_r. }
  destruct ev; cbn [handle].
  - left. destruct (formDisabled s); reflexivity.
  - left. reflexivity.
  - left. destruct (formDisabled s); [reflexivity|].
    apply handleSubmit_sends_nothing.
  - unfold previewEnabled, isTxPending.
    destruct (pendingTransaction s) as [plan|] eqn:Eplan; [|left; reflexivity].
    destruct (sending s) eqn:Esend; cbn [negb]; [left; reflexivity|].
    unfold handleTransactionApprove. rewrite Eplan.
    destruct (nth_error (txPlan plan) (currentTxIndex s)) as [tx|] eqn:Etx;
      [|left; reflexivity].
    destruct (BigIntOfString (match value tx with [] => lit "0" | t => t end))
      as [v|e] eqn:Ev.
    + right. split; [reflexivity|]. split; [reflexivity|].
      exists plan, tx, v. repeat split; try assumption; try reflexivity.
      cbn [log setSending call addMessage]. rewrite !filter_app. cbn.
      rewrite app_nil_r. reflexivity.
    + left. unfold approveFailed.
      cbn [log setCurrentTxIndex setPendingTransaction]. rewrite !Hmsg. reflexivity.
  - left. destruct (previewEnabled s); [|reflexivity].
    unfold handleTransactionReject. rewrite Hmsg. reflexivity.
  - left. destruct (sending s) as [[index plan]|]; [|reflexivity].
    unfold onSuccess.
    destruct (index + 1 <? length (txPlan plan))%nat; rewrite Hmsg; reflexivity.
  - left. reflexivity.
  - left. destruct (txHash s); [|reflexivity].
    destruct (isTxConfirmed s); reflexivity.
Qed.


(** X13.  One event sends at most one transaction, and only a click on the
    enabled approve button sends one: no request is pending in the wallet at
    that moment, the transaction is the step of the plan at the current
    index, with [BigInt] of its value, and the request is pending
    afterwards. *)
Theorem send_only_on_approve (s : State) (ev : Event) :
  filter isSendTransaction (log (step s ev)) = filter isSendTransaction (log s)
  \/ (ev = ClickApprove /\ sending s = None
      /\ exists plan tx v,
           pendingTransaction s = Some plan
           /\ nth_error (txPlan plan) (currentTxIndex s) = Some tx
           /\ BigIntOfString (match value tx with [] => lit "0" | t => t end) = Ok v
           /\ filter isSendTransaction (log (step s ev))
              = filter isSendTransaction (log s) ++ [SendTransaction (to tx) (data tx) v]
           /\ sending (step s ev) = Some (currentTxIndex s, plan)).
Proof. exact (step_sends s ev). Qed.

(** X23.  Over any sequence of events, from any state, the wallet is asked
    to send at most one transaction for each click on the approve button:
    the component never sends a transaction on its own, whatever the agent
    answers and whatever receipts arrive. *)
Theorem sends_bounded_by_approvals (evs : list Event) (s : State) :
  (Traces.sent (run s evs) <= Traces.sent s + Traces.approvals evs)%nat.
Proof.
  unfold Traces.sent, Traces.approvals, run.
  revert s. induction evs as [|ev evs IH]; intros s; cbn [fold_left filter length].
  - lia.
  - specialize (IH (step s ev)).
    destruct (step_sends s ev) as [Hsame | (Hev & _ & plan & tx & v & _ & _ & _ & Hlog & _)].
    + rewrite Hsame in IH.
      destruct (Traces.isApproveClick ev); cbn [length]; lia.
    + subst ev. rewrite Hlog, length_app in IH. cbn [Traces.isApproveClick length] in *. lia.
Qed.

(** X14.  A step whose value [BigInt] rejects cannot be sent: the click on
    approve reports the failure, empties the plan slot and resets the index,
    and the wallet is not called. *)
Theorem approve_malformed_value (s : State) (plan : TransactionData) (tx : TxStep) :
  previewEnabled s = true ->
  pendingTransaction s = Some plan ->
  nth_error (txPlan plan) (currentTxIndex s) = Some tx ->
  BigIntOfString (match value tx with [] => lit "0" | t => t end) = Throw SyntaxError ->
  idle (step s ClickApprove) = true
  /\ sending (step s ClickApprove) = sending s
  /\ exists stepType,
       log (step s ClickApprove)
       = log s ++ [ AddMessage system
                      (SendingStep stepType (currentTxIndex s + 1) (length (txPlan plan)));
                    AddMessage system TransactionFailed ].
Proof.
  intros Hen Hplan Htx Hv. unfold step, handle. rewrite Hen.
  unfold handleTransactionApprove. rewrite Hplan, Htx, Hv.
  rewrite render_no_plan by reflexivity.
  split; [reflexivity|]. split; [reflexivity|].
  eexists. cbn [log approveFailed setCurrentTxIndex setPendingTransaction addMessage].
  rewrite <- app_assoc. reflexivity.
Qed.

Lemma approve_malformed_value_witness :
  idle (step (offered brokenPlan) ClickApprove) = true
  /\ filter isSendTransaction (log (step (offered brokenPlan) ClickApprove)) = [].
Proof.
  destruct (approve_malformed_value (offered brokenPlan) brokenPlan
              {| to := lit "0x794a61358D6845594F94dc1DB02A252b5b4814aD";
                 data := lit "0x"; value := lit "1 ETH"; stepChainId := lit "42161" |}
              eq_refl eq_refl eq_refl eq_refl) as (Hidle & _ & stepType & Hlog).
  split; [exact Hidle|].
  rewrite Hlog, filter_app. reflexivity.
Defined.

(** X15.  A click on the enabled reject button empties the plan slot and
    resets the index; it sends nothing, and it leaves [txHash], the pending
    wallet request and the receipts as they were. *)
Theorem reject_discards_plan (s : State) :
  previewEnabled s = true ->
  idle (step s ClickReject) = true
  /\ log (step s ClickReject) = log s ++ [AddMessage system TransactionCancelled]
  /\ txHash (step s ClickReject) = txHash s
  /\ sending (step s ClickReject) = sending s
  /\ receipts (step s ClickReject) = receipts s.
Proof.
  intros H. unfold step, handle. rewrite H.
  rewrite render_no_plan by reflexivity.
  repeat split; reflexivity.
Qed.

Lemma reject_discards_plan_witness :
  idle (step planReceived ClickReject) = true
  /\ log (step planReceived ClickReject)
     = log planReceived ++ [AddMessage system TransactionCancelled].
Proof.
  destruct (reject_discards_plan planReceived eq_refl) as (H1 & H2 & _).
  split; assumption.
Defined.

(** X16.  A click on approve does nothing when the plan has no step at the
    current index, in particular when the plan is empty: nothing is logged
    and the state stays as it is. *)
Theorem approve_without_step (s : State) (plan : TransactionData) :
  pendingTransaction s = Some plan ->
  (length (txPlan plan) <= currentTxIndex s)%nat ->
  step s ClickApprove = s.
Proof.
  intros Hplan Hlen. unfold step, handle.
  assert (Hsame : handleTransactionApprove s = s).
  { unfold handleTransactionApprove. rewrite Hplan.
    replace (nth_error (txPlan plan) (currentTxIndex s)) with (@None TxStep);
      [reflexivity|].
    symmetry. apply nth_error_None. exact Hlen. }
  destruct (previewEnabled s); rewrite ?Hsame; unfold render;
    rewrite depsChanged_same; reflexivity.
Qed.

Lemma approve_without_step_witness :
  pendingTransaction (offered emptyPlan) = Some emptyPlan
  /\ step (offered emptyPlan) ClickApprove = offered emptyPlan.
Proof.
  split; [reflexivity|].
  apply (approve_without_step (offered emptyPlan) emptyPlan); [reflexivity|].
  cbn. lia.
Defined.

(** X17.  The receipt of a step that is not the last one, by the current
    index, only adds the message of the confirmation: the plan, the index
    and the hash stay, and nothing is sent; the next step waits for another
    click. *)
Theorem early_receipt_waits (s : State) (plan : TransactionData) (summary h : jsstring) :
  pendingTransaction s = Some plan ->
  createTransactionSummary plan = Ok summary ->
  txHash s = Some h -> h <> [] -> isTxConfirmed s = false ->
  (currentTxIndex s + 1 < length (txPlan plan))%nat ->
  step s ReceiptObserved
  = addMessage system (TransactionConfirmed summary) (addReceipt h s).
Proof.
  intros Hplan Hsum Hhash Hne Hconf Hmore.
  unfold step, handle. rewrite Hhash, Hconf.
  assert (Hnow : isTxConfirmed (addReceipt h s) = true).
  { unfold isTxConfirmed. cbn [txHash addReceipt receipts]. rewrite Hhash.
    cbn [existsb]. rewrite strEqb_refl. reflexivity. }
  assert (Hdeps : depsChanged s (addReceipt h s) = true).
  { unfold depsChanged. rewrite Hconf, Hnow. reflexivity. }
  assert (Heff : confirmationEffect (addReceipt h s)
                 = addMessage system (TransactionConfirmed summary) (addReceipt h s)).
  { unfold confirmationEffect. cbn [pendingTransaction addReceipt].
    rewrite Hplan, Hnow. unfold hasTxHash. cbn [txHash addReceipt]. rewrite Hhash.
    destruct h as [|c h]; [contradiction|]. cbn [andb]. rewrite Hsum.
    cbn [currentTxIndex addReceipt].
    replace (currentTxIndex s + 1 <? length (txPlan plan))%nat with true
      by (symmetry; apply Nat.ltb_lt; lia).
    reflexivity. }
  unfold render. rewrite Hdeps, Heff.
  replace (depsChanged (addReceipt h s)
             (addMessage system (TransactionConfirmed summary) (addReceipt h s)))
    with false; [reflexivity|].
  symmetry. apply (depsChanged_same (addReceipt h s)).
Qed.

Lemma early_receipt_waits_witness :
  let s := run (offered threeStepPlan) [ClickApprove; WalletHash (lit "0xaaa1")] in
  pendingTransaction (step s ReceiptObserved) = Some threeStepPlan
  /\ currentTxIndex (step s ReceiptObserved) = 1%nat
  /\ filter isSendTransaction (log (step s ReceiptObserved))
     = filter isSendTransaction (log s).
Proof.
  intros s.
  assert (Hplan : pendingTransaction s = Some threeStepPlan) by (vm_compute; reflexivity).
  assert (Hsum : createTransactionSummary threeStepPlan = Ok (lit "Supply 0.1 USDC"))
    by (vm_compute; reflexivity).
  assert (Hhash : txHash s = Some (lit "0xaaa1")) by (vm_compute; reflexivity).
  assert (Hne : lit "0xaaa1" <> []) by discriminate.
  assert (Hconf : isTxConfirmed s = false) by (vm_compute; reflexivity).
  assert (Hmore : (currentTxIndex s + 1 < length (txPlan threeStepPlan))%nat)
    by (vm_compute; lia).
  rewrite (early_receipt_waits s threeStepPlan (lit "Supply 0.1 USDC") (lit "0xaaa1")
             Hplan Hsum Hhash Hne Hconf Hmore).
  cbn [pendingTransaction currentTxIndex log addMessage addReceipt].
  split; [exact Hplan|]. split; [vm_compute; reflexivity|].
  rewrite filter_app. cbn [filter isSendTransaction]. apply app_nil_r.
Defined.

(** X18.  A plan of one step runs to its end: from the offered plan, with no
    request pending and a hash that has no receipt yet, the approval sends
    the step, the hash is stored, and the receipt empties the slot and clears
    the hash; the log gains the announcement, the one transaction, the
    notice of the hash and the confirmation. *)
Theorem single_step_plan_completes (s : State) (plan : TransactionData) (tx : TxStep)
    (v : Z) (summary h : jsstring) :
  pendingTransaction s = Some plan ->
  txPlan plan = [tx] ->
  currentTxIndex s = 0%nat ->
  sending s = None ->
  BigIntOfString (match value tx with [] => lit "0" | t => t end) = Ok v ->
  createTransactionSummary plan = Ok summary ->
  h <> [] ->
  existsb (strEqb h) (receipts s) = false ->
  let final := run s [ClickApprove; WalletHash h; ReceiptObserved] in
  idle final = true
  /\ txHash final = None
  /\ sending final = None
  /\ log final
     = log s ++ [ AddMessage system (SendingStep Approval 1 1);
                  SendTransaction (to tx) (data tx) v;
                  AddMessage system (FinalSent h);
                  AddMessage system (TransactionConfirmed summary) ].
Proof.
  intros Hplan Hsteps Hindex Hsend Hv Hsum Hne Hfresh.
  cbn [run fold_left].
  (* the approval *)
  set (s1 := setSending (Some (0%nat, plan))
               (call (SendTransaction (to tx) (data tx) v)
                  (addMessage system (SendingStep Approval 1 1) s))).
  assert (H1 : step s ClickApprove = s1).
  { unfold step, handle, previewEnabled, isTxPending. rewrite Hplan, Hsend. cbn [negb].
    unfold handleTransactionApprove. rewrite Hplan, Hsteps, Hindex.
    cbn [nth_error Nat.eqb Nat.add length]. rewrite Hv.
    fold s1. unfold render.
    replace (depsChanged s s1) with false; [reflexivity|].
    symmetry. apply (depsChanged_same s). }
  rewrite H1.
  (* the hash *)
  set (s2 := addMessage system (FinalSent h) (setTxHash (Some h) (setSending None s1))).
  assert (H2 : step s1 (WalletHash h) = s2).
  { unfold step, handle. cbn [sending s1 setSending].
    unfold onSuccess. rewrite Hsteps. cbn [length Nat.add Nat.ltb Nat.leb].
    fold s2. apply render_unconfirmed.
    unfold isTxConfirmed. cbn. exact Hfresh. }
  rewrite H2.
  (* the receipt *)
  assert (Hplan2 : pendingTransaction s2 = Some plan) by exact Hplan.
  assert (Hhash2 : txHash s2 = Some h) by reflexivity.
  assert (Hconf2 : isTxConfirmed s2 = false) by exact Hfresh.
  assert (Hlast : (length (txPlan plan) <= currentTxIndex s2 + 1)%nat).
  { rewrite Hsteps. cbn [length]. lia. }
  destruct (last_confirmation_resets s2 plan summary h Hplan2 Hsum Hhash2 Hne Hconf2 Hlast)
    as (Hidle & Hhash & Hlog).
  split; [exact Hidle|]. split; [exact Hhash|]. split.
  - destruct (render_frame s2 (handle ReceiptObserved s2)) as (_ & Hs & _).
    unfold step. rewrite Hs. cbn [handle]. rewrite Hhash2, Hconf2. reflexivity.
  - rewrite Hlog. cbn [log s2 addMessage setTxHash setSending s1 call].
    rewrite <- !app_assoc. reflexivity.
Qed.

Lemma single_step_plan_completes_witness :
  let final := run (offered oneStepPlan) [ClickApprove; WalletHash (lit "0xbbb2"); ReceiptObserved] in
  idle final = true
  /\ filter isSendTransaction (log final)
     = [SendTransaction (to supplyStep) (data supplyStep) 0].
Proof.
  intros final.
  assert (Hplan : pendingTransaction (offered oneStepPlan) = Some oneStepPlan)
    by (vm_compute; reflexivity).
  assert (Hindex : currentTxIndex (offered oneStepPlan) = 0%nat) by (vm_compute; reflexivity).
  assert (Hsend : sending (offered oneStepPlan) = None) by (vm_compute; reflexivity).
  assert (Hv : BigIntOfString (match value supplyStep with [] => lit "0" | t => t end) = Ok 0)
    by (vm_compute; reflexivity).
  assert (Hsum : createTransactionSummary oneStepPlan = Ok (lit "Borrow 1 ETH"))
    by (vm_compute; reflexivity).
  assert (Hne : lit "0xbbb2" <> []) by discriminate.
  assert (Hfresh : existsb (strEqb (lit "0xbbb2")) (receipts (offered oneStepPlan)) = false)
    by (vm_compute; reflexivity).
  destruct (single_step_plan_completes (offered oneStepPlan) oneStepPlan supplyStep 0
              (lit "Borrow 1 ETH") (lit "0xbbb2")
              Hplan eq_refl Hindex Hsend Hv Hsum Hne Hfresh) as (Hidle & _ & _ & Hlog).
  split; [exact Hidle|].
  fold final in Hlog. rewrite Hlog, filter_app.
  assert (Hold : filter isSendTransaction (log (offered oneStepPlan)) = [])
    by (vm_compute; reflexivity).
  rewrite Hold. reflexivity.
Defined.

(** X19.  [txHash] outlives a rejection, so its receipt can be taken for
    that of a later plan: when the form is submitted while [txHash] holds a
    hash whose receipt has arrived, and the agent answers with a plan of at
    most one step, the plan is stored and at once reported as confirmed and
    dropped; the slot is empty again, the hash is cleared and nothing was
    sent. *)
Theorem confirmed_hash_drops_new_plan (s : State)
    (text h summary : jsstring) (raw formatted : TransactionData) :
  formDisabled s = false ->
  trim (inputValue s) <> [] ->
  txHash s = Some h -> h <> [] ->
  existsb (strEqb h) (receipts s) = true ->
  formatTransactionData raw = Ok formatted ->
  createTransactionSummary formatted = Ok summary ->
  (length (txPlan formatted) <= 1)%nat ->
  let s' := step s (SubmitForm (Completed text (Some (TxArtifact raw)))) in
  pendingTransaction s' = None
  /\ txHash s' = None
  /\ filter isSendTransaction (log s') = filter isSendTransaction (log s)
  /\ log s'
     = log s ++ [ AddMessage user (UserText (trim (inputValue s)));
                  Fetch (trim (inputValue s)) (address s);
                  AddMessage assistant (AssistantText text);
                  AddMessage system (TransactionSummary summary);
                  AddMessage system (TransactionConfirmed summary) ].
Proof.
  intros Hform Hinput Hhash Hne Hrec Hfmt Hsum Hlen s'.
  unfold formDisabled in Hform.
  apply orb_false_iff in Hform. destruct Hform as [Hform Hchain].
  apply orb_false_iff in Hform. destruct Hform as [Hload Hconn].
  apply negb_false_iff in Hconn, Hchain.
  set (ag := Completed text (Some (TxArtifact raw))) in *.
  set (new := handleSubmit ag s).
  assert (Hnew : new
    = setIsLoading false
        (setCurrentTxIndex 0
           (setPendingTransaction (Some formatted)
              (addMessage system (TransactionSummary summary)
                 (addMessage assistant (AssistantText text)
                    (call (Fetch (trim (inputValue s)) (address s))
                       (setIsLoading true
                          (setInputValue []
                             (addMessage user (UserText (trim (inputValue s))) s))))))))).
  { unfold new, handleSubmit.
    destruct (trim (inputValue s)) as [|c userMessage] eqn:Etrim; [contradiction|].
    rewrite Hload, Hconn, Hchain. cbn [negb].
    unfold issueInstruction, ag, handleAgentOutcome. rewrite Hfmt, Hsum. reflexivity. }
  assert (Hconfirmed : isTxConfirmed new = true).
  { rewrite Hnew. unfold isTxConfirmed. cbn. rewrite Hhash. exact Hrec. }
  assert (Hdeps : depsChanged s new = true).
  { unfold depsChanged. apply negb_true_iff.
    replace (samePlanObject s new) with false;
      [rewrite andb_false_r; reflexivity|].
    symmetry. rewrite Hnew. unfold samePlanObject. cbn.
    destruct (pendingTransaction s); [|reflexivity].
    apply Nat.eqb_neq. lia. }
  assert (Heff : confirmationEffect new
                 = setTxHash None (setCurrentTxIndex 0 (setPendingTransaction None
                     (addMessage system (TransactionConfirmed summary) new)))).
  { unfold confirmationEffect. rewrite Hconfirmed.
    replace (pendingTransaction new) with (Some formatted) by (rewrite Hnew; reflexivity).
    replace (hasTxHash new) with true.
    2:{ rewrite Hnew. unfold hasTxHash. cbn. rewrite Hhash.
        destruct h; [contradiction|reflexivity]. }
    cbn [andb]. rewrite Hsum.
    replace (currentTxIndex new) with 0%nat by (rewrite Hnew; reflexivity).
    replace (0 + 1 <? length (txPlan formatted))%nat with false
      by (symmetry; apply Nat.ltb_ge; lia).
    reflexivity. }
  assert (Hstep : s' = confirmationEffect new).
  { unfold s', step. cbn [handle]. unfold formDisabled.
    rewrite Hload, Hconn, Hchain. cbn [negb orb]. fold ag new.
    apply render_effect_reset; [exact Hdeps|]. rewrite Heff. reflexivity. }
  rewrite Hstep, Heff.
  split; [reflexivity|]. split; [reflexivity|].
  assert (Hlog : log (setTxHash None (setCurrentTxIndex 0 (setPendingTransaction None
                   (addMessage system (TransactionConfirmed summary) new))))
                 = log s ++ [ AddMessage user (UserText (trim (inputValue s)));
                              Fetch (trim (inputValue s)) (address s);
                              AddMessage assistant (AssistantText text);
                              AddMessage system (TransactionSummary summary);
                              AddMessage system (TransactionConfirmed summary) ]).
  { rewrite Hnew. cbn [log setTxHash setCurrentTxIndex setPendingTransaction addMessage
                        setIsLoading call setInputValue].
    rewrite <- !app_assoc. reflexivity. }
  rewrite Hlog. split; [|reflexivity].
  rewrite filter_app. cbn. apply app_nil_r.
Qed.

Lemma confirmed_hash_drops_new_plan_witness :
  let s' := step afterReject
              (SubmitForm
                 (Completed (lit "ok") (Some (TxArtifact oneStepPlan)))) in
  txHash afterReject = Some (lit "0xaaa1")
  /\ pendingTransaction afterReject = None
  /\ pendingTransaction s' = None
  /\ txHash s' = None
  /\ filter isSendTransaction (log s') = filter isSendTransaction (log afterReject).
Proof.
  intros s'.
  assert (Hform : formDisabled afterReject = false) by (vm_compute; reflexivity).
  assert (Hinput : trim (inputValue afterReject) <> []) by (vm_compute; discriminate).
  assert (Hhash : txHash afterReject = Some (lit "0xaaa1")) by (vm_compute; reflexivity).
  assert (Hne : lit "0xaaa1" <> []) by discriminate.
  assert (Hrec : existsb (strEqb (lit "0xaaa1")) (receipts afterReject) = true)
    by (vm_compute; reflexivity).
  assert (Hfmt : formatTransactionData oneStepPlan = Ok oneStepPlan)
    by (vm_compute; reflexivity).
  assert (Hsum : createTransactionSummary oneStepPlan = Ok (lit "Borrow 1 ETH"))
    by (vm_compute; reflexivity).
  assert (Hlen : (length (txPlan oneStepPlan) <= 1)%nat) by (vm_compute; lia).
  destruct (confirmed_hash_drops_new_plan afterReject (lit "ok")
              (lit "0xaaa1") (lit "Borrow 1 ETH") oneStepPlan oneStepPlan
              Hform Hinput Hhash Hne Hrec Hfmt Hsum Hlen)
    as (H1 & H2 & H3 & _).
  split; [exact Hhash|]. split; [vm_compute; reflexivity|].
  split; [exact H1|]. split; [exact H2|exact H3].
Defined.

End ExecutorExtras.

Section RouteExtras.
Import Route.

(** X20.  The route calls the external agent exactly when the body of the
    request was read, is neither null nor undefined, and carries a truthy
    [instruction] and a truthy [userAddress]; the call forwards these two
    values as they are.  Whether the call is made does not depend on what
    the agent answers. *)
Theorem POST_forwards (req : BodyOutcome) (upstream : UpstreamOutcome) (r : AgentRequest) :
  snd (POST req upstream) = Some r <-> accepted req r.
Proof.
  unfold accepted, POST. split.
  - destruct req as [|body]; [discriminate|].
    destruct (property (lit "instruction") body) as [i|] eqn:Ei; [|discriminate].
    destruct (property (lit "userAddress") body) as [a|] eqn:Ea; [|discriminate].
    destruct (truthy i) eqn:Ti; [|discriminate].
    destruct (truthy a) eqn:Ta; [|discriminate].
    cbn [negb orb].
    intros H. exists body.
    assert (Hr : r = {| instruction := i; userAddress := a |}).
    { destruct upstream as [|[] [[]|]]; cbn in H; congruence. }
    subst r. cbn. repeat split; assumption.
  - intros (body & -> & Hi & Ha & Ti & Ta).
    rewrite Hi, Ha, Ti, Ta. cbn [negb orb].
    destruct r as [i a].
    destruct upstream as [|[] [[]|]]; reflexivity.
Qed.

(** X21.  The answer of the route is one of three: the data of the agent
    with status 200, the fixed message of status 400, or the fixed message
    of status 500.  It is 200 exactly when the agent was called and answered
    [ok] with a body that is JSON, which is passed on unchanged; it is 400
    exactly when the body was read, is neither null nor undefined, and one of
    the two fields is falsy, and then the agent is not called; every other
    failure, before or after the call, gives the same 500 answer. *)
Theorem POST_answers (req : BodyOutcome) (upstream : UpstreamOutcome) :
  let answer := fst (POST req upstream) in
  (status answer = 200 /\ snd (POST req upstream) <> None
     /\ upstream = UpstreamResponse true (Some (payload answer))
     /\ payload answer <> JUndefined)
  \/ (answer = errorResponse 400 "Missing instruction or userAddress"
      /\ snd (POST req upstream) = None
      /\ exists body i a,
           req = Body body
           /\ property (lit "instruction") body = Some i
           /\ property (lit "userAddress") body = Some a
           /\ truthy i && truthy a = false)
  \/ (answer = errorResponse 500 "Failed to process lending agent request"
      /\ (snd (POST req upstream) = None
            -> req = BodyThrows \/ req = Body JNull \/ req = Body JUndefined)
      /\ (snd (POST req upstream) <> None
            -> forall data, upstream = UpstreamResponse true (Some data) -> data = JUndefined)).
Proof.
  unfold POST.
  destruct req as [|body].
  { right. right. cbn. split; [reflexivity|]. split; [auto|]. intros H. contradiction. }
  destruct body as [| |b|x|str|items|fields]; cbn [property].
  1,2: right; right; cbn; split; [reflexivity|]; split; [auto|]; intros H; contradiction.
  1-4: right; left; split; [reflexivity|]; split; [reflexivity|];
       eexists _, JUndefined, JUndefined; repeat split; reflexivity.
  destruct (truthy (field (lit "instruction") fields)) eqn:Ti;
    destruct (truthy (field (lit "userAddress") fields)) eqn:Ta; cbn [negb orb].
  2-4: right; left; split; [reflexivity|]; split; [reflexivity|];
       exists (JObject fields), (field (lit "instruction") fields),
         (field (lit "userAddress") fields);
       repeat split; rewrite Ti, Ta; reflexivity.
  destruct upstream as [|[] [data|]].
  - right. right. cbn. split; [reflexivity|]. split; [discriminate|]. intros _ data H.
    discriminate.
  - destruct data; cbn.
    1: right; right; split; [reflexivity|]; split; [discriminate|];
       intros _ data H; congruence.
    all: left; repeat split; discriminate.
  - right. right. cbn. split; [reflexivity|]. split; [discriminate|]. intros _ data H.
    discriminate.
  - right. right. cbn. split; [reflexivity|]. split; [discriminate|]. intros _ data0 H.
    discriminate.
  - right. right. cbn. split; [reflexivity|]. split; [discriminate|]. intros _ data H.
    discriminate.
Qed.

(** X22.  The chat tab and the route together: the body that [handleSubmit]
    sends for a non-empty instruction passes the check of the route exactly
    when the wallet has an address that is not the empty string, and the
    agent then receives the instruction and the address as sent; without
    such an address the route answers 400 and the agent is not called. *)
Theorem client_request_checked (i : jsstring) (a : option jsstring)
    (upstream : UpstreamOutcome) :
  i <> [] ->
  match a with
  | Some (c :: rest) =>
      snd (POST (Body (requestBody i a)) upstream)
      = Some {| instruction := JString i; userAddress := JString (c :: rest) |}
  | _ => POST (Body (requestBody i a)) upstream
         = (errorResponse 400 "Missing instruction or userAddress", None)
  end.
Proof.
  intros Hi. destruct i as [|ci ri]; [contradiction|].
  destruct a as [[|c rest]|]; cbn; try reflexivity.
  destruct upstream as [|[] [[]|]]; reflexivity.
Qed.

Lemma client_request_checked_witness :
  snd (POST (Body (requestBody (lit "Supply 1 USDC") (Some (lit "0x1111"))))
         (UpstreamResponse true (Some JNull)))
  = Some {| instruction := JString (lit "Supply 1 USDC");
            userAddress := JString (lit "0x1111") |}
  /\ POST (Body (requestBody (lit "Supply 1 USDC") None)) UpstreamThrows
     = (errorResponse 400 "Missing instruction or userAddress", None).
Proof.
  split.
  - apply (client_request_checked (lit "Supply 1 USDC") (Some (lit "0x1111"))
             (UpstreamResponse true (Some JNull))). discriminate.
  - apply (client_request_checked (lit "Supply 1 USDC") None UpstreamThrows). discriminate.
Defined.

End RouteExtras.

